(** * Streaming statistics and crossing detection of the Analyst

    A shallow embedding of [src/analysis/analyst.py] (class [Analyst]) and of
    the constant [AnalysisConing.DELAY] of [config.py].

    Python floats and numpy float arrays are read as real numbers ([R]):
    every arithmetic operator of the source is the operator of the same name
    on [R]; rounding, NaN and infinities are outside the model.  A numpy
    array of shape (n, 2) is a list of rows, a one-dimensional array such as
    [arr[:, 0]] is a list of reals.  Operations that raise in Python return a
    [result]. *)

From Stdlib Require Import Floats.
From Stdlib Require Import Reals Lra Lia List Bool Arith ZArith.
From Stdlib Require Import Sorting.Sorted.
Import ListNotations.

Local Open Scope R_scope.

(** ** Exceptions *)

Inductive exn : Type :=
| IndexError
| ValueError.

Inductive result (A : Type) : Type :=
| Ok (a : A)
| Raise (e : exn).

Arguments Ok {A} a.
Arguments Raise {A} e.

Definition bind {A B : Type} (m : result A) (k : A -> result B) : result B :=
  match m with
  | Ok a => k a
  | Raise e => Raise e
  end.

Notation "x <- m ;; k" := (bind m (fun x => k))
  (at level 61, m at next level, right associativity).

(** [try: body except IndexError: handler] *)
Definition try_except_IndexError {A : Type} (body : result A) (handler : result A)
  : result A :=
  match body with
  | Raise IndexError => handler
  | other => other
  end.

(** ** Comparisons of floats *)

Definition Rltb (x y : R) : bool := if Rlt_dec x y then true else false.
Definition Rgtb (x y : R) : bool := Rltb y x.

(** ** ValenceArousal *)

(** Modelled from the spec: the class [ValenceArousal] of [src/utils], which
    is not among the sources.  "Two scalar fields, valence and arousal.
    Supports addition, subtraction, elementwise multiplication/division by
    scalar or by another AffectReading."  Its default constructor is used by
    the callers as [ValenceArousal()], and [derivative] builds
    [ValenceArousal(0, 0)]. *)
Record ValenceArousal : Type := VA { valence : R; arousal : R }.

(** Modelled from the spec: an elementwise operation on one reading. *)
Definition va_map (f : R -> R) (a : ValenceArousal) : ValenceArousal :=
  VA (f (valence a)) (f (arousal a)).

(** Modelled from the spec: an elementwise operation on two readings. *)
Definition va_map2 (f : R -> R -> R) (a b : ValenceArousal) : ValenceArousal :=
  VA (f (valence a) (valence b)) (f (arousal a) (arousal b)).

(** Modelled from the spec: [a + b], [a - b] and [a * b] of [ValenceArousal]. *)
Definition va_add : ValenceArousal -> ValenceArousal -> ValenceArousal := va_map2 Rplus.
Definition va_sub : ValenceArousal -> ValenceArousal -> ValenceArousal := va_map2 Rminus.
Definition va_mul : ValenceArousal -> ValenceArousal -> ValenceArousal := va_map2 Rmult.
(** Modelled from the spec: the operators of [ValenceArousal], elementwise
    ("a new instance is produced by every arithmetic operation").  [va_times]
    and [va_over] are [a * k] and [a / k] for an integer count [k]. *)
Definition va_times (a : ValenceArousal) (k : nat) : ValenceArousal :=
  va_map (fun x => x * INR k) a.
Definition va_over (a : ValenceArousal) (k : nat) : ValenceArousal :=
  va_map (fun x => x / INR k) a.
(** Modelled from the spec: [a * s] for a float [s]. *)
Definition va_scale (a : ValenceArousal) (s : R) : ValenceArousal :=
  va_map (fun x => x * s) a.

(** [ValenceArousal(0, 0)] *)
Definition va_zero : ValenceArousal := VA 0 0.

(** ** Buffer *)

(** Modelled from the spec: the class [Buffer] of [src/utils], which is not
    among the sources.  "An ordered, append-only sequence ...; indexing
    supports Python-style negative indices (-1 = most recent); [last(n)]
    returns the final [min(n, length)] elements, never raises on short
    buffers; emptiness is observable before any append"; "[i] raises an
    out-of-range error only when |i| > length"; "[to_array()] producing a
    dense 2-column numeric array"; "every buffer retains full history". *)
Definition Buffer : Type := list ValenceArousal.

(** Modelled from the spec: [Buffer.append], and [list.append] alike. *)
Definition append {A : Type} (b : list A) (x : A) : list A := b ++ [x].

(** Modelled from the spec: [Buffer.is_empty]. *)
Definition is_empty (b : Buffer) : bool :=
  match b with [] => true | _ => false end.

(** Modelled from the spec: [Buffer.__getitem__] at a negative index, [b[-i]]
    for [i >= 1]; a one-dimensional numpy array is indexed in the same way. *)
Definition getitem_neg {A : Type} (d : A) (b : list A) (i : nat) : result A :=
  if (1 <=? i)%nat && (i <=? length b)%nat
  then Ok (nth (length b - i) b d)
  else Raise IndexError.

(** Modelled from the spec: [Buffer.last(n)], the final [min(n, length)]
    elements. *)
Definition last_ (b : Buffer) (n : nat) : list ValenceArousal :=
  skipn (length b - n) b.

(** Modelled from the spec: [Buffer.np()], the rows of the dense array. *)
Definition np (b : Buffer) : list ValenceArousal := b.

(** ** numpy *)

Definition np_sum (l : list R) : R := fold_right Rplus 0 l.

Definition mean1 (l : list R) : R := np_sum l / INR (length l).

(** [np.var] is the mean of the squared deviations from the mean (ddof = 0) *)
Definition var1 (l : list R) : R :=
  mean1 (map (fun x => (x - mean1 l) * (x - mean1 l)) l).

Definition std1 (l : list R) : R := sqrt (var1 l).

(** [f(..., axis=0)]: [f] over each of the two columns *)
Definition axis0 (f : list R -> R) (rows : list ValenceArousal) : ValenceArousal :=
  VA (f (map valence rows)) (f (map arousal rows)).

Definition np_mean : list ValenceArousal -> ValenceArousal := axis0 mean1.
Definition np_var : list ValenceArousal -> ValenceArousal := axis0 var1.
Definition np_std : list ValenceArousal -> ValenceArousal := axis0 std1.
Definition np_sqrt : ValenceArousal -> ValenceArousal := va_map sqrt.

(** Elementwise [a - b] and [a * s] on (n, 2) arrays.  numpy raises on
    operands of different shapes; every pair of operands in this file is a pair
    of buffers of one Analyst, which are appended to in lock step
    (see [lockstep]). *)
Fixpoint np_sub (a b : list ValenceArousal) : list ValenceArousal :=
  match a, b with
  | x :: a', y :: b' => va_sub x y :: np_sub a' b'
  | _, _ => []
  end.

Definition np_scale (a : list ValenceArousal) (s : R) : list ValenceArousal :=
  map (fun x => va_scale x s) a.

(** [arr[:, 0]] *)
Definition column0 (a : list ValenceArousal) : list R := map valence a.

(** ** Activator *)

(** Modelled from the spec: the enumeration [Activator] of
    [src/analysis/activator.py], which is not among the sources.  "EventKind
    (closed set, 6 variants)". *)
Inductive Activator : Type :=
| global_deviation
| local_deviation
| global_sigmoid_deviation
| local_sigmoid_deviation
| global_rapid_deprecation
| local_rapid_deprecation.

Definition Activator_eqb (a b : Activator) : bool :=
  match a, b with
  | global_deviation, global_deviation
  | local_deviation, local_deviation
  | global_sigmoid_deviation, global_sigmoid_deviation
  | local_sigmoid_deviation, local_sigmoid_deviation
  | global_rapid_deprecation, global_rapid_deprecation
  | local_rapid_deprecation, local_rapid_deprecation => true
  | _, _ => false
  end.

(** The interval-style kinds are those that also get a closing test. *)
Definition interval_style (k : Activator) : bool :=
  match k with
  | global_rapid_deprecation | local_rapid_deprecation => false
  | _ => true
  end.

(** ** timedelta and the warm-up delay *)

(** [datetime.timedelta] counts microseconds. *)
Record timedelta : Type := Timedelta { microseconds : Z }.

Definition total_seconds (t : timedelta) : R := IZR (microseconds t) / 1000000.

(** [AnalysisConing.DELAY] *)
Definition DELAY : R := 30.

(** ** The event timeline: [defaultdict(list)] *)

(** A Python dict keeps its keys in insertion order, and [events] reads them
    in that order, so the dict is an association list. *)
Definition Intersections : Type := list (Activator * list timedelta).

Fixpoint dict_get (d : Intersections) (k : Activator) : option (list timedelta) :=
  match d with
  | [] => None
  | (k', l) :: d' => if Activator_eqb k' k then Some l else dict_get d' k
  end.

Fixpoint dict_set (d : Intersections) (k : Activator) (l : list timedelta)
  : Intersections :=
  match d with
  | [] => [(k, l)]
  | (k', l') :: d' =>
      if Activator_eqb k' k then (k', l) :: d' else (k', l') :: dict_set d' k l
  end.

(** [d[k]] on a [defaultdict(list)]: a missing key is inserted with [[]]. *)
Definition defaultdict_getitem (d : Intersections) (k : Activator)
  : Intersections * list timedelta :=
  match dict_get d k with
  | Some l => (d, l)
  | None => (dict_set d k [], [])
  end.

(** The timeline of one kind, as a reader of the dict sees it. *)
Definition timeline (d : Intersections) (k : Activator) : list timedelta :=
  match dict_get d k with
  | Some l => l
  | None => []
  end.

(** ** The Analyst *)

(** The buffers of an Analyst, by attribute name. *)
Inductive BufferName : Type :=
| _va_buffer
| _va_moving_average
| _va_mean_local_buffer
| _va_std_local_buffer
| _va_mean_global_buffer
| _va_variance_global_buffer
| _va_std_global_buffer
| _derivative_buffer
| _derivative_moving_average
| _local_derivative_mean
| _local_derivative_std
| _global_derivative_mean
| _global_derivative_variance
| _global_derivative_std.

Definition BufferName_eqb (a b : BufferName) : bool :=
  match a, b with
  | _va_buffer, _va_buffer
  | _va_moving_average, _va_moving_average
  | _va_mean_local_buffer, _va_mean_local_buffer
  | _va_std_local_buffer, _va_std_local_buffer
  | _va_mean_global_buffer, _va_mean_global_buffer
  | _va_variance_global_buffer, _va_variance_global_buffer
  | _va_std_global_buffer, _va_std_global_buffer
  | _derivative_buffer, _derivative_buffer
  | _derivative_moving_average, _derivative_moving_average
  | _local_derivative_mean, _local_derivative_mean
  | _local_derivative_std, _local_derivative_std
  | _global_derivative_mean, _global_derivative_mean
  | _global_derivative_variance, _global_derivative_variance
  | _global_derivative_std, _global_derivative_std => true
  | _, _ => false
  end.

(** The instance: its three parameters, the two raw series, the read
    counter, the event timeline and the fourteen buffers. *)
Record Analyst : Type := mkAnalyst {
  sensitivity : R;
  moving_average_size : nat;
  derivative_moving_average_size : nat;
  __v : list R;
  __a : list R;
  _number_of_reads : nat;
  _intersections : Intersections;
  _last_deviation_read : nat;
  buffers : BufferName -> Buffer
}.

(** [Analyst(sensitivity, moving_average_size, derivative_moving_average_size)] *)
Definition __init__ (sensitivity : R)
  (moving_average_size derivative_moving_average_size : nat) : Analyst :=
  mkAnalyst sensitivity moving_average_size derivative_moving_average_size
    [] [] 0 [] 0 (fun _ => []).

Definition set_v (self : Analyst) (x : list R) : Analyst :=
  mkAnalyst (sensitivity self) (moving_average_size self)
    (derivative_moving_average_size self) x (__a self) (_number_of_reads self)
    (_intersections self) (_last_deviation_read self) (buffers self).

Definition set_a (self : Analyst) (x : list R) : Analyst :=
  mkAnalyst (sensitivity self) (moving_average_size self)
    (derivative_moving_average_size self) (__v self) x (_number_of_reads self)
    (_intersections self) (_last_deviation_read self) (buffers self).

Definition set_number_of_reads (self : Analyst) (x : nat) : Analyst :=
  mkAnalyst (sensitivity self) (moving_average_size self)
    (derivative_moving_average_size self) (__v self) (__a self) x
    (_intersections self) (_last_deviation_read self) (buffers self).

Definition set_intersections (self : Analyst) (x : Intersections) : Analyst :=
  mkAnalyst (sensitivity self) (moving_average_size self)
    (derivative_moving_average_size self) (__v self) (__a self)
    (_number_of_reads self) x (_last_deviation_read self) (buffers self).

(** [self.<name>.append(x)] *)
Definition buffer_append (self : Analyst) (name : BufferName) (x : ValenceArousal)
  : Analyst :=
  mkAnalyst (sensitivity self) (moving_average_size self)
    (derivative_moving_average_size self) (__v self) (__a self)
    (_number_of_reads self) (_intersections self) (_last_deviation_read self)
    (fun n => if BufferName_eqb name n
              then append (buffers self n) x
              else buffers self n).

(** [events]: the timeline flattened, kind by kind in the order of the dict *)
Definition events (self : Analyst) : list (timedelta * Activator) :=
  concat (map (fun at_ => map (fun t => (t, fst at_)) (snd at_)) (_intersections self)).

Definition va_moving_average (self : Analyst) (window_size : nat) : ValenceArousal :=
  np_mean (last_ (buffers self _va_buffer) window_size).

Definition va_mean (self : Analyst) (mean : Buffer) (va : ValenceArousal)
  : result ValenceArousal :=
  if is_empty mean then Ok va
  else
    m1 <- getitem_neg va_zero mean 1 ;;
    let _va_mean := va_times m1 (_number_of_reads self) in
    let _va_mean := va_add _va_mean va in
    let _va_mean := va_over _va_mean (_number_of_reads self + 1) in
    Ok _va_mean.

Definition va_variance (self : Analyst) (variance mean : Buffer) (va : ValenceArousal)
  : result ValenceArousal :=
  if (length mean <? 2)%nat then Ok (np_var (np (buffers self _va_buffer)))
  else
    v1 <- getitem_neg va_zero variance 1 ;;
    let _va_variance := va_times v1 (_number_of_reads self) in
    m1 <- getitem_neg va_zero mean 1 ;;
    m2 <- getitem_neg va_zero mean 2 ;;
    let _va_variance := va_add _va_variance (va_mul (va_sub va m1) (va_sub va m2)) in
    let _va_variance := va_over _va_variance (_number_of_reads self + 1) in
    Ok _va_variance.

Definition va_std (self : Analyst) (variance : Buffer) : result ValenceArousal :=
  v1 <- getitem_neg va_zero variance 1 ;;
  Ok (np_sqrt v1).

Definition sigmoid1 (x : R) : R := (2 / (1 + exp ((- x) * 2.2))) - 1.

Definition sigmoid (x : list ValenceArousal) : list ValenceArousal :=
  map (va_map sigmoid1) x.

Definition deviation_threshold (self : Analyst) (std_buffer : Buffer)
  : list ValenceArousal :=
  np_sub (np (buffers self _va_mean_local_buffer))
         (np_scale (np std_buffer) (sensitivity self)).

Definition sigmoid_threshold (self : Analyst) (std_buffer : Buffer)
  : list ValenceArousal :=
  sigmoid (np_sub (np (buffers self _va_mean_local_buffer))
                  (np_scale (np std_buffer) (sensitivity self))).

Definition derivative (self : Analyst) : result ValenceArousal :=
  if (length (buffers self _va_buffer) <? 2)%nat then Ok (VA 0 0)
  else
    x1 <- getitem_neg va_zero (buffers self _va_buffer) 1 ;;
    x2 <- getitem_neg va_zero (buffers self _va_buffer) 2 ;;
    Ok (va_sub x1 x2).

Definition derivative_moving_average (self : Analyst) (window_size : nat)
  : ValenceArousal :=
  np_mean (last_ (buffers self _derivative_buffer) window_size).

Definition derivative_threshold (self : Analyst) (std_buffer : Buffer)
  : list ValenceArousal :=
  np_sub (np (buffers self _local_derivative_mean))
         (np_scale (np std_buffer) (sensitivity self)).

(** The body of the [try] of [is_intersection]: [Ok true] is [return True],
    [Ok false] is leaving the block without returning. *)
Definition is_intersection_try (values_1 values_2 : list R) : result bool :=
  a1 <- getitem_neg 0 values_1 1 ;;
  b1 <- getitem_neg 0 values_2 1 ;;
  if Rltb a1 b1 then
    a2 <- getitem_neg 0 values_1 2 ;;
    b2 <- getitem_neg 0 values_2 2 ;;
    if Rgtb a2 b2 then Ok true else Ok false
  else Ok false.

(** The whole function, with its handler ([except IndexError: pass], then
    [return False]). *)
Definition is_intersection_result (values_1 values_2 : list R) : result bool :=
  try_except_IndexError (is_intersection_try values_1 values_2) (Ok false).

Definition is_intersection (values_1 values_2 : list R) : bool :=
  match is_intersection_result values_1 values_2 with
  | Ok b => b
  | Raise _ => false
  end.

(** The local function [add_intersect] of [find_intersections], acting on
    [self._intersections]. *)
Definition add_intersect (d : Intersections) (_time : timedelta)
  (data_line control_line : list R) (activator : Activator) (check_oddity : bool)
  : Intersections :=
  let '(d, gate) :=
    if negb check_oddity then (d, true)
    else
      let '(d, l) := defaultdict_getitem d activator in
      (d, (length l mod 2 =? 1)%nat) in
  if gate then
    if is_intersection data_line control_line then
      let '(d, l) := defaultdict_getitem d activator in
      dict_set d activator (append l _time)
    else d
  else d.

Definition find_intersections (self : Analyst) (_time : timedelta) : Analyst :=
  if Rltb (total_seconds _time) DELAY then self
  else
    (* Data lines *)
    let deviation_line := column0 (np (buffers self _va_moving_average)) in
    let derivative_line := column0 (np (buffers self _derivative_moving_average)) in
    (* Control lines *)
    let global_v_std :=
      column0 (deviation_threshold self (buffers self _va_std_global_buffer)) in
    let local_v_std :=
      column0 (deviation_threshold self (buffers self _va_std_local_buffer)) in
    let s_global_v_std :=
      column0 (sigmoid_threshold self (buffers self _va_std_global_buffer)) in
    let s_local_v_std :=
      column0 (sigmoid_threshold self (buffers self _va_std_local_buffer)) in
    let global_v_dv_std :=
      column0 (derivative_threshold self (buffers self _global_derivative_std)) in
    let local_v_dv_std :=
      column0 (derivative_threshold self (buffers self _local_derivative_std)) in
    let d := _intersections self in
    (* Intersections from above *)
    let d := add_intersect d _time deviation_line global_v_std global_deviation false in
    let d := add_intersect d _time deviation_line local_v_std local_deviation false in
    let d := add_intersect d _time deviation_line s_global_v_std
               global_sigmoid_deviation false in
    let d := add_intersect d _time deviation_line s_local_v_std
               local_sigmoid_deviation false in
    let d := add_intersect d _time derivative_line global_v_dv_std
               global_rapid_deprecation false in
    let d := add_intersect d _time derivative_line local_v_dv_std
               local_rapid_deprecation false in
    (* Intersections from bottom *)
    let d := add_intersect d _time global_v_std deviation_line global_deviation true in
    let d := add_intersect d _time local_v_std deviation_line local_deviation true in
    let d := add_intersect d _time s_global_v_std deviation_line
               global_sigmoid_deviation true in
    let d := add_intersect d _time s_local_v_std deviation_line
               local_sigmoid_deviation true in
    set_intersections self d.

(** Lines 66 to 96 of [add_inference_result]: everything before the call
    of [find_intersections]. *)
Definition update_statistics (self : Analyst) (valence_arousal : ValenceArousal)
  : result Analyst :=
  let self := set_v self (append (__v self) (valence valence_arousal)) in
  let self := set_a self (append (__a self) (arousal valence_arousal)) in
  let self := buffer_append self _va_buffer valence_arousal in
  (* Deviation activators *)
  let self := buffer_append self _va_moving_average
                (va_moving_average self (moving_average_size self)) in
  (* Local deviation activator *)
  let self := buffer_append self _va_mean_local_buffer
                (np_mean (np (buffers self _va_buffer))) in
  let self := buffer_append self _va_std_local_buffer
                (np_std (np (buffers self _va_buffer))) in
  (* Global deviation activator *)
  m <- va_mean self (buffers self _va_mean_global_buffer) valence_arousal ;;
  let self := buffer_append self _va_mean_global_buffer m in
  v <- va_variance self (buffers self _va_variance_global_buffer)
         (buffers self _va_mean_global_buffer) valence_arousal ;;
  let self := buffer_append self _va_variance_global_buffer v in
  s <- va_std self (buffers self _va_variance_global_buffer) ;;
  let self := buffer_append self _va_std_global_buffer s in
  (* Rapid deprecation activator *)
  dv <- derivative self ;;
  let self := buffer_append self _derivative_buffer dv in
  let self := buffer_append self _derivative_moving_average
                (derivative_moving_average self (derivative_moving_average_size self)) in
  (* Local deprecation activator *)
  let self := buffer_append self _local_derivative_mean
                (np_mean (np (buffers self _derivative_buffer))) in
  let self := buffer_append self _local_derivative_std
                (np_std (np (buffers self _derivative_buffer))) in
  (* Global deprecation activator *)
  dv <- derivative self ;;
  m <- va_mean self (buffers self _global_derivative_mean) dv ;;
  let self := buffer_append self _global_derivative_mean m in
  dv <- derivative self ;;
  v <- va_variance self (buffers self _global_derivative_variance)
         (buffers self _global_derivative_mean) dv ;;
  let self := buffer_append self _global_derivative_variance v in
  s <- va_std self (buffers self _global_derivative_variance) ;;
  let self := buffer_append self _global_derivative_std s in
  Ok (set_number_of_reads self (_number_of_reads self + 1)).

Definition add_inference_result (self : Analyst) (valence_arousal : ValenceArousal)
  (_time : timedelta) : result Analyst :=
  self <- update_statistics self valence_arousal ;;
  Ok (find_intersections self _time).

(** A session: a fresh Analyst fed a sequence of readings, oldest first. *)
Definition Reading : Type := (ValenceArousal * timedelta)%type.

Fixpoint ingest (self : Analyst) (readings : list Reading) : result Analyst :=
  match readings with
  | [] => Ok self
  | (va, t) :: rest =>
      self <- add_inference_result self va t ;;
      ingest self rest
  end.

Definition session (sens : R) (w dw : nat) (readings : list Reading)
  : result Analyst :=
  ingest (__init__ sens w dw) readings.

(** ** The table of compared lines *)

(** [find_intersections] compares, for each kind, one data line with one
    control line; these two functions read the table off its calls of
    [add_intersect]. *)
Definition data_line (self : Analyst) (k : Activator) : list R :=
  match k with
  | global_rapid_deprecation | local_rapid_deprecation =>
      column0 (np (buffers self _derivative_moving_average))
  | _ => column0 (np (buffers self _va_moving_average))
  end.

Definition control_line (self : Analyst) (k : Activator) : list R :=
  match k with
  | global_deviation =>
      column0 (deviation_threshold self (buffers self _va_std_global_buffer))
  | local_deviation =>
      column0 (deviation_threshold self (buffers self _va_std_local_buffer))
  | global_sigmoid_deviation =>
      column0 (sigmoid_threshold self (buffers self _va_std_global_buffer))
  | local_sigmoid_deviation =>
      column0 (sigmoid_threshold self (buffers self _va_std_local_buffer))
  | global_rapid_deprecation =>
      column0 (derivative_threshold self (buffers self _global_derivative_std))
  | local_rapid_deprecation =>
      column0 (derivative_threshold self (buffers self _local_derivative_std))
  end.

(** Which test appended an entry of a timeline: the test "from above"
    (data line against control line) or the parity-gated test "from bottom"
    (roles reversed). *)
Inductive Crossing : Type :=
| Opening
| Closing.

(** What one call of [find_intersections] appends to the timeline of kind
    [k], in order, each entry named by the test that appended it. *)
Definition detections (self : Analyst) (_time : timedelta) (k : Activator)
  : list Crossing :=
  if Rltb (total_seconds _time) DELAY then []
  else
    let opened :=
      if is_intersection (data_line self k) (control_line self k)
      then [Opening] else [] in
    let len := (length (timeline (_intersections self) k) + length opened)%nat in
    let closed :=
      if interval_style k && (len mod 2 =? 1)%nat
         && is_intersection (control_line self k) (data_line self k)
      then [Closing] else [] in
    opened ++ closed.


(** ** One step of the statistics, buffer by buffer *)

(** The value [va_mean] returns: it reads only the read counter and the
    mean buffer. *)
Definition next_mean (n : nat) (mean : Buffer) (va : ValenceArousal) : ValenceArousal :=
  match mean with
  | [] => va
  | _ => va_over (va_add (va_times (nth (length mean - 1) mean va_zero) n) va) (n + 1)
  end.

(** The value [va_variance] returns when its indexing succeeds; [x] is the
    raw buffer. *)
Definition next_variance (n : nat) (x variance mean : Buffer) (va : ValenceArousal)
  : ValenceArousal :=
  if (length mean <? 2)%nat then np_var x
  else
    va_over
      (va_add (va_times (nth (length variance - 1) variance va_zero) n)
         (va_mul (va_sub va (nth (length mean - 1) mean va_zero))
                 (va_sub va (nth (length mean - 2) mean va_zero))))
      (n + 1).

(** The value [derivative] returns; [x] is the raw buffer. *)
Definition derivative_value (x : Buffer) : ValenceArousal :=
  if (length x <? 2)%nat then VA 0 0
  else va_sub (nth (length x - 1) x va_zero) (nth (length x - 2) x va_zero).

(** The entry that one ingestion of [va] appends to the buffer [name]. *)
Definition new_entry (s : Analyst) (va : ValenceArousal) (name : BufferName)
  : ValenceArousal :=
  let n := _number_of_reads s in
  let x := buffers s _va_buffer ++ [va] in
  let dv := derivative_value x in
  let dx := buffers s _derivative_buffer ++ [dv] in
  let gm := buffers s _va_mean_global_buffer in
  let gv := buffers s _va_variance_global_buffer in
  let gdm := buffers s _global_derivative_mean in
  let gdv := buffers s _global_derivative_variance in
  match name with
  | _va_buffer => va
  | _va_moving_average => np_mean (last_ x (moving_average_size s))
  | _va_mean_local_buffer => np_mean x
  | _va_std_local_buffer => np_std x
  | _va_mean_global_buffer => next_mean n gm va
  | _va_variance_global_buffer => next_variance n x gv (gm ++ [next_mean n gm va]) va
  | _va_std_global_buffer =>
      np_sqrt (next_variance n x gv (gm ++ [next_mean n gm va]) va)
  | _derivative_buffer => dv
  | _derivative_moving_average => np_mean (last_ dx (derivative_moving_average_size s))
  | _local_derivative_mean => np_mean dx
  | _local_derivative_std => np_std dx
  | _global_derivative_mean => next_mean n gdm dv
  | _global_derivative_variance =>
      next_variance n x gdv (gdm ++ [next_mean n gdm dv]) dv
  | _global_derivative_std =>
      np_sqrt (next_variance n x gdv (gdm ++ [next_mean n gdm dv]) dv)
  end.

(** The state after lines 66 to 96 of [add_inference_result], field by
    field. *)
Record statistics_step (s : Analyst) (va : ValenceArousal) (s' : Analyst) : Prop := {
  step_sensitivity : sensitivity s' = sensitivity s;
  step_window : moving_average_size s' = moving_average_size s;
  step_dwindow : derivative_moving_average_size s' = derivative_moving_average_size s;
  step_v : __v s' = __v s ++ [valence va];
  step_a : __a s' = __a s ++ [arousal va];
  step_reads : _number_of_reads s' = (_number_of_reads s + 1)%nat;
  step_intersections : _intersections s' = _intersections s;
  step_last_read : _last_deviation_read s' = _last_deviation_read s;
  step_buffers : forall name, buffers s' name = buffers s name ++ [new_entry s va name]
}.

(** ** Properties of traces *)

(** All buffers have one entry per consumed reading. *)
Definition lockstep (self : Analyst) : Prop :=
  forall name, length (buffers self name) = _number_of_reads self.

(** The entry of index [n] of each buffer of an incremental estimator over
    the signal [x]. *)
Definition estimator_at (n : nat) (x mean variance std : list ValenceArousal) : Prop :=
  (n = 0%nat -> nth 0 mean va_zero = nth 0 x va_zero) /\
  ((1 <= n)%nat ->
     nth n mean va_zero =
       va_over (va_add (va_times (nth (n - 1) mean va_zero) n) (nth n x va_zero)) (n + 1)
     /\
     nth n variance va_zero =
       va_over
         (va_add (va_times (nth (n - 1) variance va_zero) n)
            (va_mul (va_sub (nth n x va_zero) (nth n mean va_zero))
                    (va_sub (nth n x va_zero) (nth (n - 1) mean va_zero))))
         (n + 1)) /\
  nth n std va_zero = va_map sqrt (nth n variance va_zero).

Definition incremental_estimator (x mean variance std : list ValenceArousal) : Prop :=
  length mean = length x /\ length variance = length x /\ length std = length x /\
  forall n, (n < length x)%nat -> estimator_at n x mean variance std.

(** The first difference of a signal, with the zero at index 0. *)
Definition difference_at (n : nat) (x : list ValenceArousal) : ValenceArousal :=
  match n with
  | O => VA 0 0
  | S m => va_sub (nth n x va_zero) (nth m x va_zero)
  end.

Definition first_difference (x dx : list ValenceArousal) : Prop :=
  length dx = length x /\
  forall n, (n < length x)%nat -> nth n dx va_zero = difference_at n x.

(** The last [min (n + 1) w] entries of [x[0..n]]. *)
Definition window (w n : nat) (x : list ValenceArousal) : list ValenceArousal :=
  skipn (S n - Nat.min (S n) w) (firstn (S n) x).

(** The arithmetic mean of a list of readings, column by column. *)
Definition arithmetic_mean (l : list ValenceArousal) : ValenceArousal :=
  VA (fold_right Rplus 0 (map valence l) / INR (length l))
     (fold_right Rplus 0 (map arousal l) / INR (length l)).

Definition moving_average_of (w : nat) (x ma : list ValenceArousal) : Prop :=
  length ma = length x /\
  forall n, (n < length x)%nat -> nth n ma va_zero = arithmetic_mean (window w n x).

(** Cumulative ("local") mean and standard deviation of [x]. *)
Definition cumulative_of (f : list ValenceArousal -> ValenceArousal)
  (x c : list ValenceArousal) : Prop :=
  length c = length x /\
  forall n, (n < length x)%nat -> nth n c va_zero = f (firstn (S n) x).

(** Two Analysts that differ at most in the arousal column of their buffers
    and in their raw series. *)
Definition valence_equal (s1 s2 : Analyst) : Prop :=
  sensitivity s1 = sensitivity s2 /\
  moving_average_size s1 = moving_average_size s2 /\
  derivative_moving_average_size s1 = derivative_moving_average_size s2 /\
  _number_of_reads s1 = _number_of_reads s2 /\
  _intersections s1 = _intersections s2 /\
  forall name, column0 (buffers s1 name) = column0 (buffers s2 name).

(** Two Analysts that differ at most in their event timeline. *)
Definition same_statistics (s1 s2 : Analyst) : Prop :=
  sensitivity s1 = sensitivity s2 /\
  moving_average_size s1 = moving_average_size s2 /\
  derivative_moving_average_size s1 = derivative_moving_average_size s2 /\
  __v s1 = __v s2 /\ __a s1 = __a s2 /\
  _number_of_reads s1 = _number_of_reads s2 /\
  _last_deviation_read s1 = _last_deviation_read s2 /\
  forall name, buffers s1 name = buffers s2 name.


(** The parameters are fixed at construction, the raw buffer holds the
    readings, and all buffers are as long as the session. *)
Definition session_shape (sens : R) (w dw : nat) (rs : list Reading) (s : Analyst) : Prop :=
  sensitivity s = sens /\ moving_average_size s = w /\
  derivative_moving_average_size s = dw /\
  _number_of_reads s = length rs /\
  buffers s _va_buffer = map fst rs.

(** ** Concrete sessions *)

(** A timestamp of [n] whole seconds. *)
Definition sec (n : Z) : timedelta := Timedelta (n * 1000000).

(** Valence dips below its running mean, comes back to touch the mean
    exactly, rises and dips again; one reading per second from second 30. *)
Definition dip_touch_dip : list Reading :=
  [ (VA 0 0, sec 30); (VA 2 0, sec 31); (VA (-2) 0, sec 32);
    (VA 0 0, sec 33); (VA 5 0, sec 34); (VA (-5) 0, sec 35) ].

(** Two readings during the warm-up. *)
Definition before_thirty : list Reading := [ (VA 0 0, sec 28); (VA 2 0, sec 29) ].

(** The same valence with two different arousal series. *)
Definition calm : list Reading := [ (VA 1 0, sec 30); (VA 3 0, sec 31) ].
Definition excited : list Reading := [ (VA 1 9, sec 30); (VA 3 (-4), sec 31) ].

(** ** The accessors of the raw series *)

(** The properties [valence] and [arousal] of an Analyst,
    [np.array(self.__v)] and [np.array(self.__a)]. *)
Module Accessor.

Definition valence (self : Analyst) : list R := __v self.
Definition arousal (self : Analyst) : list R := __a self.

End Accessor.

(** ** Order-preserving sublists *)

(** [subsequence l m]: [l] is [m] with some entries left out. *)
Inductive subsequence {A : Type} : list A -> list A -> Prop :=
| subsequence_nil : subsequence [] []
| subsequence_skip (x : A) (l m : list A) :
    subsequence l m -> subsequence l (x :: m)
| subsequence_take (x : A) (l m : list A) :
    subsequence l m -> subsequence (x :: l) (x :: m).

(** The guard of [find_intersections], negated: detection runs at [t]. *)
Definition past_delay (t : timedelta) : bool := negb (Rltb (total_seconds t) DELAY).

(** Timestamps in increasing order. *)
Definition earlier (a b : timedelta) : Prop := (microseconds a < microseconds b)%Z.

(** The keys of the timeline, in the order of the dict. *)
Definition keys (d : Intersections) : list Activator := map fst d.

(** The three buffers of an estimator hold, entry by entry, the mean, the
    variance and the standard deviation of the signal up to that entry. *)
Definition exact_estimator (x mean variance std : list ValenceArousal) : Prop :=
  cumulative_of np_mean x mean /\
  cumulative_of np_var x variance /\
  cumulative_of np_std x std.

(** Both columns of a reading are non-negative. *)
Definition va_nonneg (v : ValenceArousal) : Prop := 0 <= valence v /\ 0 <= arousal v.

(** Every moment buffer of an Analyst, as a function of its signal. *)
Definition exact_statistics (s : Analyst) : Prop :=
  exact_estimator (buffers s _va_buffer) (buffers s _va_mean_global_buffer)
    (buffers s _va_variance_global_buffer) (buffers s _va_std_global_buffer) /\
  exact_estimator (buffers s _derivative_buffer) (buffers s _global_derivative_mean)
    (buffers s _global_derivative_variance) (buffers s _global_derivative_std) /\
  cumulative_of np_mean (buffers s _va_buffer) (buffers s _va_mean_local_buffer) /\
  cumulative_of np_std (buffers s _va_buffer) (buffers s _va_std_local_buffer) /\
  cumulative_of np_mean (buffers s _derivative_buffer) (buffers s _local_derivative_mean) /\
  cumulative_of np_std (buffers s _derivative_buffer) (buffers s _local_derivative_std).






(** ** Alternation of an interval-style timeline *)

(** The latest sample of a line. *)
Definition latest (l : list R) : R := nth (length l - 1) l 0.

(** At the latest sample the data line of kind [k] does not touch its
    control line. *)
Definition no_tie (s : Analyst) (k : Activator) : Prop :=
  latest (data_line s k) <> latest (control_line s k).

(** Once a timestamp has reached the delay, no later one is below it. *)
Definition warm_up_once (ts : list timedelta) : Prop :=
  forall i j t t',
    (i <= j)%nat -> nth_error ts i = Some t -> nth_error ts j = Some t' ->
    DELAY <= total_seconds t -> DELAY <= total_seconds t'.

Definition other_crossing (c : Crossing) : Crossing :=
  match c with
  | Opening => Closing
  | Closing => Opening
  end.

(** A log that is empty, or starts with [c] and goes on with the other kind
    of crossing, and so on. *)
Fixpoint alternates_from (c : Crossing) (log : list Crossing) : Prop :=
  match log with
  | [] => True
  | x :: rest => x = c /\ alternates_from (other_crossing c) rest
  end.

(** The crossing that the parity of the timeline of [k] lets in next. *)
Definition expected (d : Intersections) (k : Activator) : Crossing :=
  if (length (timeline d k) mod 2 =? 1)%nat then Closing else Opening.

(** While an interval of kind [k] is open, the data line is below the
    control line. *)
Definition open_below (s : Analyst) (k : Activator) : Prop :=
  (length (timeline (_intersections s) k) mod 2 = 1)%nat ->
  latest (data_line s k) < latest (control_line s k).

(** Valence dips below its running mean, rises above it and dips again,
    never touching it after the first reading. *)
Definition dip_rise_dip : list Reading :=
  [ (VA 0 0, sec 30); (VA 2 0, sec 31); (VA (-2) 0, sec 32);
    (VA 1 0, sec 33); (VA 5 0, sec 34); (VA (-5) 0, sec 35) ].

(** * The statistics on IEEE doubles *)

(** Lines 66 to 96 of [add_inference_result] once more, on binary64 floats
    with the operations of IEEE 754, for the readings that the real numbers
    leave out: infinities and NaN, which the Analyst accepts like any other
    float.  Every definition is the one of the same name above, with the
    operators of [float] in place of those of [R]. *)
Module Float64.

Local Open Scope float_scope.

Record ValenceArousal : Type := VA { valence : float; arousal : float }.

Definition va_map (f : float -> float) (a : ValenceArousal) : ValenceArousal :=
  VA (f (valence a)) (f (arousal a)).

Definition va_map2 (f : float -> float -> float) (a b : ValenceArousal)
  : ValenceArousal :=
  VA (f (valence a) (valence b)) (f (arousal a) (arousal b)).

Definition va_add : ValenceArousal -> ValenceArousal -> ValenceArousal :=
  va_map2 PrimFloat.add.
Definition va_sub : ValenceArousal -> ValenceArousal -> ValenceArousal :=
  va_map2 PrimFloat.sub.
Definition va_mul : ValenceArousal -> ValenceArousal -> ValenceArousal :=
  va_map2 PrimFloat.mul.

(** An [int] operand of a float operator is converted to the double of the
    same value. *)
Definition of_int (k : nat) : float := PrimFloat.of_uint63 (Uint63.of_Z (Z.of_nat k)).

Definition va_times (a : ValenceArousal) (k : nat) : ValenceArousal :=
  va_map (fun x => x * of_int k) a.
Definition va_over (a : ValenceArousal) (k : nat) : ValenceArousal :=
  va_map (fun x => x / of_int k) a.

Definition va_zero : ValenceArousal := VA 0 0.

Definition Buffer : Type := list ValenceArousal.

Definition is_empty (b : Buffer) : bool :=
  match b with [] => true | _ => false end.

Definition last_ (b : Buffer) (n : nat) : list ValenceArousal :=
  skipn (length b - n) b.

Definition np (b : Buffer) : list ValenceArousal := b.

(** The sum of a column: the rows are added one after the other, from the
    first. *)
Definition np_sum (l : list float) : float :=
  match l with
  | [] => 0
  | x :: rest => fold_left PrimFloat.add rest x
  end.

Definition mean1 (l : list float) : float := np_sum l / of_int (length l).

(** [np.var]: the mean of the column is subtracted from every entry, the
    differences are squared, summed and divided by the count. *)
Definition var1 (l : list float) : float :=
  mean1 (map (fun x => (x - mean1 l) * (x - mean1 l)) l).

Definition std1 (l : list float) : float := PrimFloat.sqrt (var1 l).

Definition axis0 (f : list float -> float) (rows : list ValenceArousal)
  : ValenceArousal :=
  VA (f (map valence rows)) (f (map arousal rows)).

Definition np_mean : list ValenceArousal -> ValenceArousal := axis0 mean1.
Definition np_var : list ValenceArousal -> ValenceArousal := axis0 var1.
Definition np_std : list ValenceArousal -> ValenceArousal := axis0 std1.
Definition np_sqrt : ValenceArousal -> ValenceArousal := va_map PrimFloat.sqrt.

Record Analyst : Type := mkAnalyst {
  sensitivity : float;
  moving_average_size : nat;
  derivative_moving_average_size : nat;
  __v : list float;
  __a : list float;
  _number_of_reads : nat;
  _intersections : Intersections;
  _last_deviation_read : nat;
  buffers : BufferName -> Buffer
}.

Definition __init__ (sensitivity : float)
  (moving_average_size derivative_moving_average_size : nat) : Analyst :=
  mkAnalyst sensitivity moving_average_size derivative_moving_average_size
    [] [] 0 [] 0 (fun _ => []).

Definition set_v (self : Analyst) (x : list float) : Analyst :=
  mkAnalyst (sensitivity self) (moving_average_size self)
    (derivative_moving_average_size self) x (__a self) (_number_of_reads self)
    (_intersections self) (_last_deviation_read self) (buffers self).

Definition set_a (self : Analyst) (x : list float) : Analyst :=
  mkAnalyst (sensitivity self) (moving_average_size self)
    (derivative_moving_average_size self) (__v self) x (_number_of_reads self)
    (_intersections self) (_last_deviation_read self) (buffers self).

Definition set_number_of_reads (self : Analyst) (x : nat) : Analyst :=
  mkAnalyst (sensitivity self) (moving_average_size self)
    (derivative_moving_average_size self) (__v self) (__a self) x
    (_intersections self) (_last_deviation_read self) (buffers self).

Definition buffer_append (self : Analyst) (name : BufferName) (x : ValenceArousal)
  : Analyst :=
  mkAnalyst (sensitivity self) (moving_average_size self)
    (derivative_moving_average_size self) (__v self) (__a self)
    (_number_of_reads self) (_intersections self) (_last_deviation_read self)
    (fun n => if BufferName_eqb name n
              then append (buffers self n) x
              else buffers self n).

Definition va_moving_average (self : Analyst) (window_size : nat) : ValenceArousal :=
  np_mean (last_ (buffers self _va_buffer) window_size).

Definition va_mean (self : Analyst) (mean : Buffer) (va : ValenceArousal)
  : result ValenceArousal :=
  if is_empty mean then Ok va
  else
    m1 <- getitem_neg va_zero mean 1 ;;
    let _va_mean := va_times m1 (_number_of_reads self) in
    let _va_mean := va_add _va_mean va in
    let _va_mean := va_over _va_mean (_number_of_reads self + 1) in
    Ok _va_mean.

Definition va_variance (self : Analyst) (variance mean : Buffer) (va : ValenceArousal)
  : result ValenceArousal :=
  if (length mean <? 2)%nat then Ok (np_var (np (buffers self _va_buffer)))
  else
    v1 <- getitem_neg va_zero variance 1 ;;
    let _va_variance := va_times v1 (_number_of_reads self) in
    m1 <- getitem_neg va_zero mean 1 ;;
    m2 <- getitem_neg va_zero mean 2 ;;
    let _va_variance := va_add _va_variance (va_mul (va_sub va m1) (va_sub va m2)) in
    let _va_variance := va_over _va_variance (_number_of_reads self + 1) in
    Ok _va_variance.

Definition va_std (self : Analyst) (variance : Buffer) : result ValenceArousal :=
  v1 <- getitem_neg va_zero variance 1 ;;
  Ok (np_sqrt v1).

Definition derivative (self : Analyst) : result ValenceArousal :=
  if (length (buffers self _va_buffer) <? 2)%nat then Ok (VA 0 0)
  else
    x1 <- getitem_neg va_zero (buffers self _va_buffer) 1 ;;
    x2 <- getitem_neg va_zero (buffers self _va_buffer) 2 ;;
    Ok (va_sub x1 x2).

Definition derivative_moving_average (self : Analyst) (window_size : nat)
  : ValenceArousal :=
  np_mean (last_ (buffers self _derivative_buffer) window_size).

Definition update_statistics (self : Analyst) (valence_arousal : ValenceArousal)
  : result Analyst :=
  let self := set_v self (append (__v self) (valence valence_arousal)) in
  let self := set_a self (append (__a self) (arousal valence_arousal)) in
  let self := buffer_append self _va_buffer valence_arousal in
  (* Deviation activators *)
  let self := buffer_append self _va_moving_average
                (va_moving_average self (moving_average_size self)) in
  (* Local deviation activator *)
  let self := buffer_append self _va_mean_local_buffer
                (np_mean (np (buffers self _va_buffer))) in
  let self := buffer_append self _va_std_local_buffer
                (np_std (np (buffers self _va_buffer))) in
  (* Global deviation activator *)
  m <- va_mean self (buffers self _va_mean_global_buffer) valence_arousal ;;
  let self := buffer_append self _va_mean_global_buffer m in
  v <- va_variance self (buffers self _va_variance_global_buffer)
         (buffers self _va_mean_global_buffer) valence_arousal ;;
  let self := buffer_append self _va_variance_global_buffer v in
  s <- va_std self (buffers self _va_variance_global_buffer) ;;
  let self := buffer_append self _va_std_global_buffer s in
  (* Rapid deprecation activator *)
  dv <- derivative self ;;
  let self := buffer_append self _derivative_buffer dv in
  let self := buffer_append self _derivative_moving_average
                (derivative_moving_average self (derivative_moving_average_size self)) in
  (* Local deprecation activator *)
  let self := buffer_append self _local_derivative_mean
                (np_mean (np (buffers self _derivative_buffer))) in
  let self := buffer_append self _local_derivative_std
                (np_std (np (buffers self _derivative_buffer))) in
  (* Global deprecation activator *)
  dv <- derivative self ;;
  m <- va_mean self (buffers self _global_derivative_mean) dv ;;
  let self := buffer_append self _global_derivative_mean m in
  dv <- derivative self ;;
  v <- va_variance self (buffers self _global_derivative_variance)
         (buffers self _global_derivative_mean) dv ;;
  let self := buffer_append self _global_derivative_variance v in
  s <- va_std self (buffers self _global_derivative_variance) ;;
  let self := buffer_append self _global_derivative_std s in
  Ok (set_number_of_reads self (_number_of_reads self + 1)).

End Float64.

(** * Proofs *)

(** ** Comparisons, indexing, the dict *)

Lemma Rltb_true (x y : R) : x < y -> Rltb x y = true.
Proof. intros H. unfold Rltb. destruct (Rlt_dec x y); [reflexivity | contradiction]. Qed.

Lemma Rltb_false (x y : R) : ~ x < y -> Rltb x y = false.
Proof. intros H. unfold Rltb. destruct (Rlt_dec x y); [contradiction | reflexivity]. Qed.

Lemma Rltb_iff (x y : R) : Rltb x y = true <-> x < y.
Proof.
  unfold Rltb. destruct (Rlt_dec x y); split; intros; auto; discriminate.
Qed.

Lemma Activator_eqb_eq (a b : Activator) : Activator_eqb a b = true <-> a = b.
Proof. destruct a, b; simpl; split; intros H; try reflexivity; discriminate. Qed.

Lemma Activator_eqb_refl (a : Activator) : Activator_eqb a a = true.
Proof. destruct a; reflexivity. Qed.

Lemma Activator_eqb_neq (a b : Activator) : a <> b -> Activator_eqb a b = false.
Proof.
  intros H. destruct (Activator_eqb a b) eqn:E; [|reflexivity].
  apply Activator_eqb_eq in E. contradiction.
Qed.

Lemma getitem_neg_ok {A : Type} (d : A) (b : list A) (i : nat) :
  (1 <= i <= length b)%nat -> getitem_neg d b i = Ok (nth (length b - i) b d).
Proof.
  intros [H1 H2]. unfold getitem_neg.
  apply Nat.leb_le in H1, H2. rewrite H1, H2. reflexivity.
Qed.

Lemma getitem_neg_short {A : Type} (d : A) (b : list A) (i : nat) :
  (length b < i)%nat -> getitem_neg d b i = Raise IndexError.
Proof.
  intros H. unfold getitem_neg.
  apply Nat.leb_gt in H. rewrite H, andb_false_r. reflexivity.
Qed.

Lemma nth_snoc_last {A : Type} (d : A) (b : list A) (x : A) :
  nth (length (b ++ [x]) - 1) (b ++ [x]) d = x.
Proof.
  rewrite length_app. simpl.
  replace (length b + 1 - 1)%nat with (length b) by lia.
  rewrite app_nth2 by lia. rewrite Nat.sub_diag. reflexivity.
Qed.

Lemma nth_snoc_old {A : Type} (d : A) (b : list A) (x : A) (n : nat) :
  (n < length b)%nat -> nth n (b ++ [x]) d = nth n b d.
Proof. intros H. apply app_nth1. exact H. Qed.

Lemma nth_snoc_new {A : Type} (d : A) (b : list A) (x : A) :
  nth (length b) (b ++ [x]) d = x.
Proof. rewrite app_nth2 by lia. rewrite Nat.sub_diag. reflexivity. Qed.

(** ** The methods never fail on buffers filled in lock step *)

Lemma va_mean_ok (self : Analyst) (mean : Buffer) (va : ValenceArousal) :
  va_mean self mean va = Ok (next_mean (_number_of_reads self) mean va).
Proof.
  unfold va_mean, next_mean. destruct mean as [|m mean]; [reflexivity|].
  cbn [is_empty]. rewrite getitem_neg_ok by (simpl; lia). reflexivity.
Qed.

Lemma va_variance_ok (self : Analyst) (variance mean : Buffer) (va : ValenceArousal) :
  ((length mean < 2)%nat \/ (1 <= length variance)%nat) ->
  va_variance self variance mean va =
    Ok (next_variance (_number_of_reads self) (buffers self _va_buffer) variance mean va).
Proof.
  intros H. unfold va_variance, next_variance, np.
  destruct (length mean <? 2)%nat eqn:E; [reflexivity|].
  apply Nat.ltb_ge in E. destruct H as [H|H]; [lia|].
  rewrite !getitem_neg_ok by lia. reflexivity.
Qed.

Lemma va_std_ok (self : Analyst) (variance : Buffer) (v : ValenceArousal) :
  va_std self (variance ++ [v]) = Ok (np_sqrt v).
Proof.
  unfold va_std. rewrite getitem_neg_ok by (rewrite length_app; simpl; lia).
  rewrite nth_snoc_last. reflexivity.
Qed.

Lemma derivative_ok (self : Analyst) :
  derivative self = Ok (derivative_value (buffers self _va_buffer)).
Proof.
  unfold derivative, derivative_value.
  destruct (length (buffers self _va_buffer) <? 2)%nat eqn:E; [reflexivity|].
  apply Nat.ltb_ge in E. rewrite !getitem_neg_ok by lia. reflexivity.
Qed.

Ltac step_cbn :=
  cbn -[va_mean va_variance va_std derivative np_mean np_std np_var np_sqrt
        next_mean next_variance derivative_value last_ Nat.ltb Nat.add length].

Lemma update_statistics_ok (s : Analyst) (va : ValenceArousal) :
  lockstep s -> exists s', update_statistics s va = Ok s' /\ statistics_step s va s'.
Proof.
  intros L. unfold update_statistics. cbv zeta. step_cbn.
  rewrite va_mean_ok. step_cbn.
  rewrite va_variance_ok.
  2:{ rewrite length_app, (L _va_mean_global_buffer), (L _va_variance_global_buffer).
      simpl. lia. }
  step_cbn.
  rewrite va_std_ok. step_cbn.
  rewrite derivative_ok. step_cbn.
  rewrite derivative_ok. step_cbn.
  rewrite va_mean_ok. step_cbn.
  rewrite derivative_ok. step_cbn.
  rewrite va_variance_ok.
  2:{ rewrite length_app, (L _global_derivative_mean), (L _global_derivative_variance).
      simpl. lia. }
  step_cbn.
  rewrite va_std_ok. step_cbn.
  eexists. split; [reflexivity|].
  constructor; try reflexivity.
  intros name. destruct name; reflexivity.
Qed.

Lemma statistics_step_lockstep (s s' : Analyst) (va : ValenceArousal) :
  lockstep s -> statistics_step s va s' -> lockstep s'.
Proof.
  intros L St name. rewrite (step_buffers _ _ _ St), (step_reads _ _ _ St).
  rewrite length_app, L. reflexivity.
Qed.

(** [find_intersections] writes to the timeline only. *)
Lemma find_intersections_frame (s : Analyst) (t : timedelta) :
  same_statistics (find_intersections s t) s.
Proof.
  unfold find_intersections. destruct (Rltb (total_seconds t) DELAY);
    repeat split; reflexivity.
Qed.

Lemma find_intersections_buffers (s : Analyst) (t : timedelta) :
  buffers (find_intersections s t) = buffers s.
Proof.
  unfold find_intersections. destruct (Rltb (total_seconds t) DELAY); reflexivity.
Qed.

Lemma find_intersections_reads (s : Analyst) (t : timedelta) :
  _number_of_reads (find_intersections s t) = _number_of_reads s.
Proof.
  unfold find_intersections. destruct (Rltb (total_seconds t) DELAY); reflexivity.
Qed.

Lemma find_intersections_lockstep (s : Analyst) (t : timedelta) :
  lockstep s -> lockstep (find_intersections s t).
Proof.
  intros L name. rewrite find_intersections_buffers, find_intersections_reads. apply L.
Qed.

Lemma add_inference_result_ok (s : Analyst) (va : ValenceArousal) (t : timedelta) :
  lockstep s ->
  exists s1, statistics_step s va s1 /\ lockstep s1 /\
             update_statistics s va = Ok s1 /\
             add_inference_result s va t = Ok (find_intersections s1 t).
Proof.
  intros L. destruct (update_statistics_ok s va L) as [s1 [E St]].
  exists s1. split; [exact St|]. split; [eapply statistics_step_lockstep; eauto|].
  split; [exact E|]. unfold add_inference_result. rewrite E. reflexivity.
Qed.

(** Induction over a session: a property of (readings consumed, state) that
    holds at the start and is kept by every ingestion holds at the end, and
    the session does not raise. *)
Lemma ingest_induction (P : list Reading -> Analyst -> Prop) :
  (forall done s va t s1,
      lockstep s -> P done s -> statistics_step s va s1 ->
      P (done ++ [(va, t)]) (find_intersections s1 t)) ->
  forall rs done s,
    lockstep s -> P done s ->
    exists s', ingest s rs = Ok s' /\ lockstep s' /\ P (done ++ rs) s'.
Proof.
  intros Hstep rs. induction rs as [|[va t] rs IH]; intros done s L HP.
  - exists s. rewrite app_nil_r. auto.
  - destruct (add_inference_result_ok s va t L) as [s1 [St [L1 [_ E]]]].
    destruct (IH (done ++ [(va, t)]) (find_intersections s1 t)) as [s' [E' [L' HP']]].
    + apply find_intersections_lockstep, L1.
    + apply (Hstep done s va t s1 L HP St).
    + exists s'. simpl. rewrite E. simpl. rewrite E'.
      rewrite <- app_assoc in HP'. auto.
Qed.

Lemma lockstep_init (sens : R) (w dw : nat) : lockstep (__init__ sens w dw).
Proof. intros name. reflexivity. Qed.

Lemma session_induction (P : list Reading -> Analyst -> Prop) (sens : R) (w dw : nat) :
  P [] (__init__ sens w dw) ->
  (forall done s va t s1,
      lockstep s -> P done s -> statistics_step s va s1 ->
      P (done ++ [(va, t)]) (find_intersections s1 t)) ->
  forall rs, exists s, session sens w dw rs = Ok s /\ lockstep s /\ P rs s.
Proof.
  intros H0 Hstep rs.
  destruct (ingest_induction P Hstep rs [] (__init__ sens w dw)) as [s [E [L HP]]];
    auto using lockstep_init.
  exists s. auto.
Qed.

Lemma session_shape_step (sens : R) (w dw : nat) (done : list Reading) (s s1 : Analyst)
  (va : ValenceArousal) (t : timedelta) :
  session_shape sens w dw done s -> statistics_step s va s1 ->
  session_shape sens w dw (done ++ [(va, t)]) (find_intersections s1 t).
Proof.
  intros (Hs & Hw & Hdw & Hn & Hx) St.
  destruct (find_intersections_frame s1 t) as (Fs & Fw & Fdw & _ & _ & Fn & _ & Fb).
  unfold session_shape. rewrite Fs, Fw, Fdw, Fn, Fb.
  rewrite (step_sensitivity _ _ _ St), (step_window _ _ _ St), (step_dwindow _ _ _ St),
    (step_reads _ _ _ St), (step_buffers _ _ _ St).
  rewrite Hx, Hn, map_app, length_app. simpl. auto.
Qed.

(** A property of states that holds for a fresh Analyst and is kept by every
    ingestion holds after every session. *)
Lemma session_invariant (Q : Analyst -> Prop) (sens : R) (w dw : nat) :
  Q (__init__ sens w dw) ->
  (forall s va t s1,
      lockstep s -> Q s -> statistics_step s va s1 -> Q (find_intersections s1 t)) ->
  forall rs, exists s,
    session sens w dw rs = Ok s /\ lockstep s /\ session_shape sens w dw rs s /\ Q s.
Proof.
  intros H0 Hstep rs.
  destruct (session_induction (fun done s => session_shape sens w dw done s /\ Q s)
              sens w dw) with (rs := rs) as [s [E [L [Sh HQ]]]].
  - split; [repeat split|exact H0].
  - intros done s va t s1 L [Sh HQ] St. split.
    + eapply session_shape_step; eauto.
    + eapply Hstep; eauto.
  - exists s. auto.
Qed.

(** ** Buffers that are a function of the prefixes of a signal *)

Section Traced.

Variable F : nat -> list ValenceArousal -> ValenceArousal.
Hypothesis F_prefix :
  forall x a n, (n < length x)%nat -> F n (x ++ [a]) = F n x.

Lemma traced_snoc (x c : list ValenceArousal) (a e : ValenceArousal) :
  e = F (length x) (x ++ [a]) ->
  (length c = length x /\
   forall n, (n < length x)%nat -> nth n c va_zero = F n x) ->
  length (c ++ [e]) = length (x ++ [a]) /\
  forall n, (n < length (x ++ [a]))%nat -> nth n (c ++ [e]) va_zero = F n (x ++ [a]).
Proof.
  intros He [Hl Hn]. split.
  - rewrite !length_app, Hl. reflexivity.
  - intros n Hlt. rewrite length_app in Hlt. simpl in Hlt.
    destruct (Nat.eq_dec n (length x)) as [->|Hne].
    + rewrite <- Hl, nth_snoc_new, Hl. exact He.
    + rewrite nth_snoc_old by lia. rewrite F_prefix by lia. apply Hn. lia.
Qed.

End Traced.

Lemma firstn_snoc_old {A : Type} (x : list A) (a : A) (n : nat) :
  (n <= length x)%nat -> firstn n (x ++ [a]) = firstn n x.
Proof.
  intros H. rewrite firstn_app.
  replace (n - length x)%nat with 0%nat by lia. simpl. apply app_nil_r.
Qed.

Lemma firstn_snoc_all {A : Type} (x : list A) (a : A) :
  firstn (S (length x)) (x ++ [a]) = x ++ [a].
Proof.
  replace (S (length x)) with (length (x ++ [a])) by (rewrite length_app; simpl; lia).
  apply firstn_all.
Qed.

(** ** The derivative *)

Lemma difference_at_prefix (x : list ValenceArousal) (a : ValenceArousal) (n : nat) :
  (n < length x)%nat -> difference_at n (x ++ [a]) = difference_at n x.
Proof.
  intros H. destruct n as [|m]; [reflexivity|].
  simpl. rewrite !nth_snoc_old by lia. reflexivity.
Qed.

Lemma derivative_value_snoc (x : list ValenceArousal) (a : ValenceArousal) :
  derivative_value (x ++ [a]) = difference_at (length x) (x ++ [a]).
Proof.
  unfold derivative_value. rewrite length_app. simpl.
  destruct (length x) as [|m] eqn:E.
  - reflexivity.
  - replace (S m + 1 <? 2)%nat with false by (symmetry; apply Nat.ltb_ge; lia).
    cbn [difference_at]. f_equal; f_equal; lia.
Qed.

Lemma first_difference_step (s s1 : Analyst) (va : ValenceArousal) :
  statistics_step s va s1 ->
  first_difference (buffers s _va_buffer) (buffers s _derivative_buffer) ->
  first_difference (buffers s1 _va_buffer) (buffers s1 _derivative_buffer).
Proof.
  intros St H. rewrite !(step_buffers _ _ _ St). cbn [new_entry].
  apply (traced_snoc difference_at difference_at_prefix); [|exact H].
  apply derivative_value_snoc.
Qed.

Lemma session_first_difference (sens : R) (w dw : nat) (rs : list Reading) :
  exists s, session sens w dw rs = Ok s /\ lockstep s /\
            session_shape sens w dw rs s /\
            first_difference (map fst rs) (buffers s _derivative_buffer).
Proof.
  destruct (session_invariant
              (fun s => first_difference (buffers s _va_buffer)
                          (buffers s _derivative_buffer)) sens w dw)
    with (rs := rs) as [s (E & L & Sh & H)].
  - split; [reflexivity|]. simpl. intros n Hn. lia.
  - intros s va t s1 L H St. rewrite find_intersections_buffers.
    eapply first_difference_step; eauto.
  - exists s. repeat split; try assumption; try apply Sh.
    + destruct Sh as (_ & _ & _ & _ & Hx). rewrite <- Hx. apply H.
    + destruct Sh as (_ & _ & _ & _ & Hx). rewrite <- Hx. apply H.
Qed.

(** C7.  After any session, entry 0 of the derivative series is (0, 0) and
    entry [n >= 1] is reading [n] minus reading [n - 1], elementwise; the
    session does not raise, and [derivative] itself returns on every state,
    with the zero when fewer than 2 readings are buffered. *)
Theorem derivative_series (sens : R) (w dw : nat) (rs : list Reading) (n : nat) :
  (n < length rs)%nat ->
  exists s,
    session sens w dw rs = Ok s /\
    nth n (buffers s _derivative_buffer) va_zero =
      match n with
      | O => VA 0 0
      | S m => va_sub (nth n (map fst rs) va_zero) (nth m (map fst rs) va_zero)
      end /\
    forall self, exists dv,
      derivative self = Ok dv /\
      ((length (buffers self _va_buffer) < 2)%nat -> dv = VA 0 0).
Proof.
  intros Hn. destruct (session_first_difference sens w dw rs) as [s (E & L & Sh & H)].
  exists s. split; [exact E|]. split.
  - destruct H as [_ H]. rewrite H by (rewrite length_map; exact Hn). reflexivity.
  - intros self. exists (derivative_value (buffers self _va_buffer)).
    split; [apply derivative_ok|]. intros Hlt. unfold derivative_value.
    apply Nat.ltb_lt in Hlt. rewrite Hlt. reflexivity.
Qed.

(** ** The moving averages *)

Lemma np_mean_arithmetic (l : list ValenceArousal) : np_mean l = arithmetic_mean l.
Proof.
  unfold np_mean, axis0, mean1, arithmetic_mean, np_sum. rewrite !length_map. reflexivity.
Qed.

Lemma window_prefix (w : nat) (x : list ValenceArousal) (a : ValenceArousal) (n : nat) :
  (n < length x)%nat -> window w n (x ++ [a]) = window w n x.
Proof. intros H. unfold window. rewrite firstn_snoc_old by lia. reflexivity. Qed.

Lemma last_snoc_window (w : nat) (x : list ValenceArousal) (a : ValenceArousal) :
  last_ (x ++ [a]) w = window w (length x) (x ++ [a]).
Proof.
  unfold last_, window. rewrite firstn_snoc_all, length_app.
  cbn [length]. f_equal. lia.
Qed.

Lemma window_length (w n : nat) (x : list ValenceArousal) :
  (n < length x)%nat -> length (window w n x) = Nat.min (n + 1) w.
Proof.
  intros H. unfold window. rewrite length_skipn, length_firstn. lia.
Qed.

Lemma moving_average_prefix (w : nat) (x : list ValenceArousal) (a : ValenceArousal)
  (n : nat) :
  (n < length x)%nat ->
  arithmetic_mean (window w n (x ++ [a])) = arithmetic_mean (window w n x).
Proof. intros H. rewrite window_prefix by exact H. reflexivity. Qed.

Lemma moving_average_step (s s1 : Analyst) (va : ValenceArousal) :
  statistics_step s va s1 ->
  moving_average_of (moving_average_size s)
    (buffers s _va_buffer) (buffers s _va_moving_average) /\
  moving_average_of (derivative_moving_average_size s)
    (buffers s _derivative_buffer) (buffers s _derivative_moving_average) ->
  moving_average_of (moving_average_size s1)
    (buffers s1 _va_buffer) (buffers s1 _va_moving_average) /\
  moving_average_of (derivative_moving_average_size s1)
    (buffers s1 _derivative_buffer) (buffers s1 _derivative_moving_average).
Proof.
  intros St [H1 H2]. rewrite !(step_buffers _ _ _ St).
  rewrite (step_window _ _ _ St), (step_dwindow _ _ _ St). cbn [new_entry]. split.
  - apply (traced_snoc (fun n x => arithmetic_mean (window (moving_average_size s) n x))
             (moving_average_prefix _)); [|exact H1].
    rewrite np_mean_arithmetic, last_snoc_window. reflexivity.
  - apply (traced_snoc
             (fun n x => arithmetic_mean (window (derivative_moving_average_size s) n x))
             (moving_average_prefix _)); [|exact H2].
    rewrite np_mean_arithmetic, last_snoc_window. reflexivity.
Qed.

Lemma session_moving_average (sens : R) (w dw : nat) (rs : list Reading) :
  exists s, session sens w dw rs = Ok s /\ lockstep s /\
            session_shape sens w dw rs s /\
            moving_average_of w (map fst rs) (buffers s _va_moving_average) /\
            moving_average_of dw (buffers s _derivative_buffer)
              (buffers s _derivative_moving_average).
Proof.
  destruct (session_invariant
              (fun s =>
                 moving_average_of (moving_average_size s)
                   (buffers s _va_buffer) (buffers s _va_moving_average) /\
                 moving_average_of (derivative_moving_average_size s)
                   (buffers s _derivative_buffer) (buffers s _derivative_moving_average))
              sens w dw)
    with (rs := rs) as [s (E & L & Sh & H)].
  - split; (split; [reflexivity | simpl; intros n Hn; lia]).
  - intros s va t s1 L H St.
    destruct (find_intersections_frame s1 t) as (_ & Fw & Fdw & _ & _ & _ & _ & Fb).
    rewrite Fw, Fdw, !Fb. eapply moving_average_step; eauto.
  - exists s. split; [exact E|]. split; [exact L|]. split; [exact Sh|].
    destruct Sh as (_ & Hw & Hdw & _ & Hx). rewrite Hw, Hdw, Hx in H. exact H.
Qed.

(** C8.  The moving average recorded at step [n] is the arithmetic mean of
    the window of the last [min (n + 1) w] readings up to and including
    reading [n]; the derivative moving average is the same over the
    derivative series with its own window size; the session does not
    raise. *)
Theorem moving_average_window (sens : R) (w dw : nat) (rs : list Reading) (n : nat) :
  (n < length rs)%nat ->
  exists s,
    session sens w dw rs = Ok s /\
    nth n (buffers s _va_moving_average) va_zero
      = arithmetic_mean (window w n (map fst rs)) /\
    length (window w n (map fst rs)) = Nat.min (n + 1) w /\
    nth n (buffers s _derivative_moving_average) va_zero
      = arithmetic_mean (window dw n (buffers s _derivative_buffer)) /\
    length (window dw n (buffers s _derivative_buffer)) = Nat.min (n + 1) dw.
Proof.
  intros Hn.
  destruct (session_moving_average sens w dw rs) as [s (E & L & Sh & [_ H1] & [_ H2])].
  destruct Sh as (_ & _ & _ & Hr & Hx).
  assert (Hd : length (buffers s _derivative_buffer) = length rs)
    by (rewrite L; exact Hr).
  exists s. split; [exact E|]. split; [|split; [|split]].
  - apply H1. rewrite length_map. exact Hn.
  - apply window_length. rewrite length_map. exact Hn.
  - apply H2. rewrite Hd. exact Hn.
  - apply window_length. rewrite Hd. exact Hn.
Qed.

(** ** The incremental estimator *)

Lemma nth_snoc_at {A : Type} (d : A) (b : list A) (x : A) (n : nat) :
  length b = n -> nth n (b ++ [x]) d = x.
Proof. intros <-. apply nth_snoc_new. Qed.

Lemma incremental_estimator_snoc (n : nat) (x gm gv gs xr : list ValenceArousal)
  (a : ValenceArousal) :
  length x = n ->
  incremental_estimator x gm gv gs ->
  incremental_estimator (x ++ [a])
    (gm ++ [next_mean n gm a])
    (gv ++ [next_variance n xr gv (gm ++ [next_mean n gm a]) a])
    (gs ++ [np_sqrt (next_variance n xr gv (gm ++ [next_mean n gm a]) a)]).
Proof.
  intros Hx (Hm & Hv & Hs & H). unfold incremental_estimator.
  rewrite !length_app, Hm, Hv, Hs. repeat (split; [reflexivity|]).
  rewrite Hx in Hm, Hv, Hs.
  intros k Hk. simpl in Hk.
  destruct (Nat.eq_dec k n) as [->|Hne].
  - unfold estimator_at.
    rewrite (nth_snoc_at _ gm _ n), (nth_snoc_at _ gv _ n), (nth_snoc_at _ gs _ n),
      (nth_snoc_at _ x _ n) by assumption.
    split; [|split].
    + intros E. subst n. rewrite E in Hm.
      destruct gm; [|discriminate]. destruct x; [reflexivity|discriminate].
    + intros Hge. rewrite !nth_snoc_old by lia. split.
      * unfold next_mean. destruct gm as [|m gm]; [simpl in Hm; lia|].
        rewrite Hm. reflexivity.
      * unfold next_variance. rewrite length_app, Hm. cbn [length].
        replace (n + 1 <? 2)%nat with false by (symmetry; apply Nat.ltb_ge; lia).
        rewrite Hv.
        replace (n + 1 - 1)%nat with n by lia.
        replace (n + 1 - 2)%nat with (n - 1)%nat by lia.
        rewrite (nth_snoc_at _ gm _ n) by assumption.
        rewrite nth_snoc_old by lia. reflexivity.
    + reflexivity.
  - assert (Hlt : (k < length x)%nat) by lia.
    destruct (H k Hlt) as (E0 & E1 & E2). unfold estimator_at.
    rewrite !nth_snoc_old by lia. split; [|split].
    + intros ->. apply E0. reflexivity.
    + intros Hge. apply E1. exact Hge.
    + exact E2.
Qed.

Lemma incremental_estimator_step (s s1 : Analyst) (va : ValenceArousal) :
  lockstep s -> statistics_step s va s1 ->
  incremental_estimator (buffers s _va_buffer) (buffers s _va_mean_global_buffer)
    (buffers s _va_variance_global_buffer) (buffers s _va_std_global_buffer) /\
  incremental_estimator (buffers s _derivative_buffer) (buffers s _global_derivative_mean)
    (buffers s _global_derivative_variance) (buffers s _global_derivative_std) ->
  incremental_estimator (buffers s1 _va_buffer) (buffers s1 _va_mean_global_buffer)
    (buffers s1 _va_variance_global_buffer) (buffers s1 _va_std_global_buffer) /\
  incremental_estimator (buffers s1 _derivative_buffer) (buffers s1 _global_derivative_mean)
    (buffers s1 _global_derivative_variance) (buffers s1 _global_derivative_std).
Proof.
  intros L St [H1 H2]. rewrite !(step_buffers _ _ _ St). cbn [new_entry]. split.
  - apply incremental_estimator_snoc; [apply L | exact H1].
  - apply incremental_estimator_snoc; [apply L | exact H2].
Qed.

Lemma incremental_estimator_nil : incremental_estimator [] [] [] [].
Proof.
  split; [reflexivity|]. split; [reflexivity|]. split; [reflexivity|].
  simpl. intros n Hn. lia.
Qed.

(** C1.  After any session, for the raw signal and for the derivative
    signal, the global mean, variance and standard deviation buffers satisfy
    at every index [n]: mean[0] = x[0]; for [n >= 1],
    mean[n] = (mean[n-1] * n + x[n]) / (n + 1) and
    variance[n] = (variance[n-1] * n + (x[n] - mean[n]) * (x[n] - mean[n-1])) / (n + 1);
    std[n] = sqrt(variance[n]); all elementwise. *)
Theorem incremental_estimator_recurrence (sens : R) (w dw : nat) (rs : list Reading)
  (n : nat) :
  (n < length rs)%nat ->
  exists s,
    session sens w dw rs = Ok s /\
    buffers s _va_buffer = map fst rs /\
    estimator_at n (map fst rs) (buffers s _va_mean_global_buffer)
      (buffers s _va_variance_global_buffer) (buffers s _va_std_global_buffer) /\
    estimator_at n (buffers s _derivative_buffer) (buffers s _global_derivative_mean)
      (buffers s _global_derivative_variance) (buffers s _global_derivative_std).
Proof.
  intros Hn.
  destruct (session_invariant
              (fun s =>
                 incremental_estimator (buffers s _va_buffer)
                   (buffers s _va_mean_global_buffer)
                   (buffers s _va_variance_global_buffer)
                   (buffers s _va_std_global_buffer) /\
                 incremental_estimator (buffers s _derivative_buffer)
                   (buffers s _global_derivative_mean)
                   (buffers s _global_derivative_variance)
                   (buffers s _global_derivative_std))
              sens w dw)
    with (rs := rs) as [s (E & L & Sh & H1 & H2)].
  - split; apply incremental_estimator_nil.
  - intros s va t s1 L H St. rewrite !find_intersections_buffers.
    eapply incremental_estimator_step; eauto.
  - destruct Sh as (_ & _ & _ & Hr & Hx).
    exists s. split; [exact E|]. split; [exact Hx|]. split.
    + rewrite <- Hx. apply H1. rewrite Hx, length_map. exact Hn.
    + apply H2. rewrite L, Hr. exact Hn.
Qed.

(** ** The threshold curves *)

Lemma nth_map_in {A B : Type} (f : A -> B) (l : list A) (n : nat) (d : A) (d' : B) :
  (n < length l)%nat -> nth n (map f l) d' = f (nth n l d).
Proof.
  intros H. rewrite (nth_indep _ d' (f d)) by (rewrite length_map; exact H).
  apply map_nth.
Qed.

Lemma nth_np_sub (a b : list ValenceArousal) (n : nat) :
  (n < length a)%nat -> (n < length b)%nat ->
  nth n (np_sub a b) va_zero = va_sub (nth n a va_zero) (nth n b va_zero).
Proof.
  revert b n. induction a as [|x a IH]; intros [|y b] [|n] Ha Hb; simpl in *;
    try lia; try reflexivity.
  apply IH; lia.
Qed.

Lemma length_np_sub (a b : list ValenceArousal) :
  length (np_sub a b) = Nat.min (length a) (length b).
Proof.
  revert b. induction a as [|x a IH]; intros [|y b]; simpl; try reflexivity.
  rewrite IH. reflexivity.
Qed.

Lemma cumulative_prefix (f : list ValenceArousal -> ValenceArousal)
  (x : list ValenceArousal) (a : ValenceArousal) (n : nat) :
  (n < length x)%nat -> f (firstn (S n) (x ++ [a])) = f (firstn (S n) x).
Proof. intros H. rewrite firstn_snoc_old by lia. reflexivity. Qed.

Lemma cumulative_step (s s1 : Analyst) (va : ValenceArousal) :
  statistics_step s va s1 ->
  cumulative_of arithmetic_mean (buffers s _va_buffer) (buffers s _va_mean_local_buffer) /\
  cumulative_of arithmetic_mean (buffers s _derivative_buffer)
    (buffers s _local_derivative_mean) ->
  cumulative_of arithmetic_mean (buffers s1 _va_buffer) (buffers s1 _va_mean_local_buffer) /\
  cumulative_of arithmetic_mean (buffers s1 _derivative_buffer)
    (buffers s1 _local_derivative_mean).
Proof.
  intros St [H1 H2]. rewrite !(step_buffers _ _ _ St). cbn [new_entry]. split.
  - apply (traced_snoc (fun n x => arithmetic_mean (firstn (S n) x))
             (cumulative_prefix arithmetic_mean)); [|exact H1].
    rewrite firstn_snoc_all. apply np_mean_arithmetic.
  - apply (traced_snoc (fun n x => arithmetic_mean (firstn (S n) x))
             (cumulative_prefix arithmetic_mean)); [|exact H2].
    rewrite firstn_snoc_all. apply np_mean_arithmetic.
Qed.

Lemma session_cumulative (sens : R) (w dw : nat) (rs : list Reading) :
  exists s, session sens w dw rs = Ok s /\ lockstep s /\
            session_shape sens w dw rs s /\
            cumulative_of arithmetic_mean (map fst rs) (buffers s _va_mean_local_buffer) /\
            cumulative_of arithmetic_mean (buffers s _derivative_buffer)
              (buffers s _local_derivative_mean).
Proof.
  destruct (session_invariant
              (fun s =>
                 cumulative_of arithmetic_mean (buffers s _va_buffer)
                   (buffers s _va_mean_local_buffer) /\
                 cumulative_of arithmetic_mean (buffers s _derivative_buffer)
                   (buffers s _local_derivative_mean))
              sens w dw)
    with (rs := rs) as [s (E & L & Sh & H)].
  - split; (split; [reflexivity | simpl; intros n Hn; lia]).
  - intros s va t s1 L H St. rewrite !find_intersections_buffers.
    eapply cumulative_step; eauto.
  - exists s. split; [exact E|]. split; [exact L|]. split; [exact Sh|].
    destruct Sh as (_ & _ & _ & _ & Hx). rewrite Hx in H. exact H.
Qed.

Lemma sigmoid1_formula (x : R) : sigmoid1 x = 2 / (1 + exp (- 2.2 * x)) - 1.
Proof. unfold sigmoid1. f_equal. f_equal. f_equal. f_equal. lra. Qed.

(** C6.  After any session, entry [i] of each threshold curve is the
    cumulative ("local") mean of the first [i + 1] values of its signal minus
    entry [i] of the supplied std buffer times the sensitivity, whichever std
    buffer is supplied; the sigmoid curve is [2 / (1 + exp (-2.2 x)) - 1] of
    that same quantity [x]; the global and the local std buffers both
    qualify as [std_source]. *)
Theorem threshold_curves (sens : R) (w dw : nat) (rs : list Reading) (i : nat) :
  (i < length rs)%nat ->
  exists s,
    session sens w dw rs = Ok s /\
    (forall name, length (buffers s name) = length rs) /\
    forall std_source,
      length std_source = length rs ->
      let mean := arithmetic_mean (firstn (S i) (map fst rs)) in
      let dmean := arithmetic_mean (firstn (S i) (buffers s _derivative_buffer)) in
      let std := nth i std_source va_zero in
      nth i (deviation_threshold s std_source) va_zero
        = va_sub mean (va_scale std sens) /\
      nth i (sigmoid_threshold s std_source) va_zero
        = va_map (fun x => 2 / (1 + exp (- 2.2 * x)) - 1)
            (va_sub mean (va_scale std sens)) /\
      nth i (derivative_threshold s std_source) va_zero
        = va_sub dmean (va_scale std sens).
Proof.
  intros Hi.
  destruct (session_cumulative sens w dw rs) as [s (E & L & Sh & [Hl1 H1] & [Hl2 H2])].
  destruct Sh as (Hs & _ & _ & Hr & Hx).
  assert (Hlen : forall name, length (buffers s name) = length rs)
    by (intros name; rewrite L; exact Hr).
  exists s. split; [exact E|]. split; [exact Hlen|].
  intros std_source Hstd mean dmean std.
  assert (Hsub :
    nth i (np_sub (buffers s _va_mean_local_buffer) (np_scale std_source sens)) va_zero
    = va_sub mean (va_scale std sens)).
  { rewrite nth_np_sub.
    - rewrite H1 by (rewrite length_map; exact Hi).
      unfold np_scale. rewrite (nth_map_in _ _ _ va_zero) by lia. reflexivity.
    - rewrite Hlen. exact Hi.
    - unfold np_scale. rewrite length_map. lia. }
  unfold deviation_threshold, sigmoid_threshold, derivative_threshold, np.
  rewrite Hs. split; [exact Hsub|]. split.
  - unfold sigmoid. rewrite (nth_map_in _ _ _ va_zero).
    + rewrite Hsub. unfold va_map. f_equal; apply sigmoid1_formula.
    + rewrite length_np_sub, Hlen. unfold np_scale. rewrite length_map. lia.
  - rewrite nth_np_sub.
    + rewrite H2 by (rewrite Hlen; exact Hi).
      unfold np_scale. rewrite (nth_map_in _ _ _ va_zero) by lia. reflexivity.
    + rewrite Hlen. exact Hi.
    + unfold np_scale. rewrite length_map. lia.
Qed.

(** ** The crossing test *)

Lemma is_intersection_result_short (v1 v2 : list R) :
  (length v1 < 2)%nat \/ (length v2 < 2)%nat ->
  is_intersection_result v1 v2 = Ok false.
Proof.
  intros H. unfold is_intersection_result, is_intersection_try.
  destruct (le_lt_dec 1 (length v1)) as [H1|H1];
    [|rewrite (getitem_neg_short _ v1 1) by lia; reflexivity].
  rewrite (getitem_neg_ok _ v1 1) by lia. cbn [bind].
  destruct (le_lt_dec 1 (length v2)) as [H2|H2];
    [|rewrite (getitem_neg_short _ v2 1) by lia; reflexivity].
  rewrite (getitem_neg_ok _ v2 1) by lia. cbn [bind].
  destruct (Rltb _ _); [|reflexivity].
  destruct (le_lt_dec 2 (length v1)) as [H3|H3];
    [|rewrite (getitem_neg_short _ v1 2) by lia; reflexivity].
  rewrite (getitem_neg_ok _ v1 2) by lia. cbn [bind].
  rewrite (getitem_neg_short _ v2 2) by lia. reflexivity.
Qed.

Lemma is_intersection_result_long (v1 v2 : list R) :
  (2 <= length v1)%nat -> (2 <= length v2)%nat ->
  is_intersection_result v1 v2 =
    Ok (Rltb (nth (length v1 - 1) v1 0) (nth (length v2 - 1) v2 0)
        && Rgtb (nth (length v1 - 2) v1 0) (nth (length v2 - 2) v2 0)).
Proof.
  intros H1 H2. unfold is_intersection_result, is_intersection_try.
  rewrite (getitem_neg_ok _ v1 1), (getitem_neg_ok _ v2 1) by lia. cbn [bind].
  destruct (Rltb _ _); [|reflexivity].
  rewrite (getitem_neg_ok _ v1 2), (getitem_neg_ok _ v2 2) by lia. cbn [bind].
  destruct (Rgtb _ _); reflexivity.
Qed.

Lemma is_intersection_true_iff (v1 v2 : list R) :
  is_intersection v1 v2 = true <->
    (2 <= length v1)%nat /\ (2 <= length v2)%nat /\
    nth (length v1 - 2) v1 0 > nth (length v2 - 2) v2 0 /\
    nth (length v1 - 1) v1 0 < nth (length v2 - 1) v2 0.
Proof.
  unfold is_intersection.
  destruct (le_lt_dec 2 (length v1)) as [H1|H1];
    [destruct (le_lt_dec 2 (length v2)) as [H2|H2]|].
  - rewrite (is_intersection_result_long v1 v2 H1 H2).
    rewrite andb_true_iff. unfold Rgtb. rewrite !Rltb_iff. unfold Rgt. tauto.
  - rewrite (is_intersection_result_short v1 v2 (or_intror H2)).
    split; [discriminate | lia].
  - rewrite (is_intersection_result_short v1 v2 (or_introl H1)).
    split; [discriminate | lia].
Qed.

(** The opening and the closing test of one call cannot both succeed. *)
Lemma is_intersection_exclusive (v1 v2 : list R) :
  is_intersection v1 v2 = true -> is_intersection v2 v1 = false.
Proof.
  intros H. apply is_intersection_true_iff in H. destruct H as (H1 & H2 & _ & Hlt).
  destruct (is_intersection v2 v1) eqn:E; [|reflexivity].
  apply is_intersection_true_iff in E. destruct E as (_ & _ & _ & Hlt'). lra.
Qed.

(** C4.  [is_intersection] returns on all inputs; it returns [True] if and
    only if both lines have at least 2 samples, the first line is strictly
    above the second at the sample before the last and strictly below it at
    the last; with fewer than 2 samples on either line it returns [False]. *)
Theorem crossing_from_above (v1 v2 : list R) :
  (exists b, is_intersection_result v1 v2 = Ok b) /\
  (is_intersection v1 v2 = true <->
     (2 <= length v1)%nat /\ (2 <= length v2)%nat /\
     nth (length v1 - 2) v1 0 > nth (length v2 - 2) v2 0 /\
     nth (length v1 - 1) v1 0 < nth (length v2 - 1) v2 0) /\
  ((length v1 < 2)%nat \/ (length v2 < 2)%nat ->
     is_intersection_result v1 v2 = Ok false /\ is_intersection v1 v2 = false).
Proof.
  split; [|split].
  - destruct (le_lt_dec 2 (length v1)) as [H1|H1];
      [destruct (le_lt_dec 2 (length v2)) as [H2|H2]|].
    + rewrite (is_intersection_result_long v1 v2 H1 H2). eauto.
    + rewrite (is_intersection_result_short v1 v2 (or_intror H2)). eauto.
    + rewrite (is_intersection_result_short v1 v2 (or_introl H1)). eauto.
  - apply is_intersection_true_iff.
  - intros H. unfold is_intersection.
    rewrite (is_intersection_result_short v1 v2 H). auto.
Qed.

(** ** The timeline *)

Lemma dict_get_set_same (d : Intersections) (k : Activator) (l : list timedelta) :
  dict_get (dict_set d k l) k = Some l.
Proof.
  induction d as [|[k' l'] d IH]; simpl.
  - rewrite Activator_eqb_refl. reflexivity.
  - destruct (Activator_eqb k' k) eqn:E; simpl; rewrite E; [reflexivity | exact IH].
Qed.

Lemma dict_get_set_other (d : Intersections) (k k' : Activator) (l : list timedelta) :
  k <> k' -> dict_get (dict_set d k l) k' = dict_get d k'.
Proof.
  intros Hne. induction d as [|[k0 l0] d IH]; simpl.
  - rewrite Activator_eqb_neq by exact Hne. reflexivity.
  - destruct (Activator_eqb k0 k) eqn:E; simpl.
    + apply Activator_eqb_eq in E. subst k0.
      rewrite Activator_eqb_neq by exact Hne. reflexivity.
    + destruct (Activator_eqb k0 k'); [reflexivity | exact IH].
Qed.

Lemma timeline_set_same (d : Intersections) (k : Activator) (l : list timedelta) :
  timeline (dict_set d k l) k = l.
Proof. unfold timeline. rewrite dict_get_set_same. reflexivity. Qed.

Lemma timeline_set_other (d : Intersections) (k k' : Activator) (l : list timedelta) :
  k <> k' -> timeline (dict_set d k l) k' = timeline d k'.
Proof. intros H. unfold timeline. rewrite dict_get_set_other by exact H. reflexivity. Qed.

Lemma defaultdict_getitem_value (d : Intersections) (k : Activator) :
  snd (defaultdict_getitem d k) = timeline d k.
Proof. unfold defaultdict_getitem, timeline. destruct (dict_get d k); reflexivity. Qed.

Lemma defaultdict_getitem_timeline (d : Intersections) (k k' : Activator) :
  timeline (fst (defaultdict_getitem d k)) k' = timeline d k'.
Proof.
  unfold defaultdict_getitem. destruct (dict_get d k) eqn:E; [reflexivity|].
  simpl. destruct (Activator_eqb k k') eqn:Ek.
  - apply Activator_eqb_eq in Ek. subst k'.
    rewrite timeline_set_same. unfold timeline. rewrite E. reflexivity.
  - apply timeline_set_other. intros ->. rewrite Activator_eqb_refl in Ek. discriminate.
Qed.

Lemma add_intersect_timeline_same (d : Intersections) (t : timedelta)
  (dl cl : list R) (k : Activator) (check_oddity : bool) :
  timeline (add_intersect d t dl cl k check_oddity) k =
    timeline d k ++
      (if (negb check_oddity || (length (timeline d k) mod 2 =? 1)%nat)
          && is_intersection dl cl
       then [t] else []).
Proof.
  unfold add_intersect. destruct check_oddity; cbn [negb orb].
  - pose proof (defaultdict_getitem_value d k) as Hv.
    pose proof (defaultdict_getitem_timeline d k) as Ht.
    destruct (defaultdict_getitem d k) as [d1 l1]. simpl in Hv, Ht. subst l1.
    destruct (length (timeline d k) mod 2 =? 1)%nat; cbn [andb].
    + destruct (is_intersection dl cl).
      * pose proof (defaultdict_getitem_value d1 k) as Hv'.
        destruct (defaultdict_getitem d1 k) as [d2 l2]. simpl in Hv'. subst l2.
        rewrite timeline_set_same, Ht. reflexivity.
      * rewrite Ht, app_nil_r. reflexivity.
    + rewrite Ht, app_nil_r. reflexivity.
  - destruct (is_intersection dl cl).
    + pose proof (defaultdict_getitem_value d k) as Hv'.
      destruct (defaultdict_getitem d k) as [d2 l2]. simpl in Hv'. subst l2.
      rewrite timeline_set_same. reflexivity.
    + rewrite app_nil_r. reflexivity.
Qed.

Lemma add_intersect_timeline_other (d : Intersections) (t : timedelta)
  (dl cl : list R) (k k' : Activator) (check_oddity : bool) :
  k <> k' -> timeline (add_intersect d t dl cl k check_oddity) k' = timeline d k'.
Proof.
  intros Hne. unfold add_intersect.
  assert (Happend : forall d0,
             timeline (let '(d1, l) := defaultdict_getitem d0 k in
                       dict_set d1 k (append l t)) k' = timeline d0 k').
  { intros d0. pose proof (defaultdict_getitem_timeline d0 k k') as Ht.
    destruct (defaultdict_getitem d0 k) as [d1 l1]. simpl in Ht.
    rewrite timeline_set_other by exact Hne. exact Ht. }
  destruct check_oddity; cbn [negb].
  - pose proof (defaultdict_getitem_timeline d k k') as Ht.
    destruct (defaultdict_getitem d k) as [d1 l1]. simpl in Ht.
    destruct (length l1 mod 2 =? 1)%nat; [|exact Ht].
    destruct (is_intersection dl cl); [|exact Ht].
    rewrite Happend. exact Ht.
  - destruct (is_intersection dl cl); [|reflexivity]. apply Happend.
Qed.

(** What [find_intersections] does to the timeline of each kind. *)
Lemma find_intersections_timeline (s : Analyst) (t : timedelta) (k : Activator) :
  timeline (_intersections (find_intersections s t)) k =
    timeline (_intersections s) k ++ map (fun _ => t) (detections s t k).
Proof.
  unfold find_intersections, detections.
  destruct (Rltb (total_seconds t) DELAY); [rewrite app_nil_r; reflexivity|].
  cbv zeta. cbn [_intersections set_intersections].
  destruct k; cbn [data_line control_line interval_style andb];
    repeat first
      [ rewrite add_intersect_timeline_other by discriminate
      | rewrite add_intersect_timeline_same ];
    cbn [negb orb andb];
    destruct (is_intersection _ _); cbn [length map app];
    rewrite ?length_app, ?app_nil_r; cbn [length]; rewrite ?Nat.add_0_r;
    try reflexivity;
    try (destruct (_ mod 2 =? 1)%nat; cbn [andb];
         try destruct (is_intersection _ _); cbn [map app];
         rewrite <- ?app_assoc; reflexivity).
Qed.

(** ** Statistics do not depend on the timeline *)

Lemma same_statistics_refl (s : Analyst) : same_statistics s s.
Proof. repeat split; reflexivity. Qed.

Lemma same_statistics_sym (a b : Analyst) : same_statistics a b -> same_statistics b a.
Proof.
  intros (H1 & H2 & H3 & H4 & H5 & H6 & H7 & H8).
  repeat split; try (symmetry; assumption). intros name. symmetry. apply H8.
Qed.

Lemma same_statistics_trans (a b c : Analyst) :
  same_statistics a b -> same_statistics b c -> same_statistics a c.
Proof.
  intros (H1 & H2 & H3 & H4 & H5 & H6 & H7 & H8) (G1 & G2 & G3 & G4 & G5 & G6 & G7 & G8).
  repeat split; try (etransitivity; eassumption).
  intros name. rewrite H8. apply G8.
Qed.

Lemma same_statistics_lockstep (a b : Analyst) :
  same_statistics a b -> lockstep a -> lockstep b.
Proof.
  intros (_ & _ & _ & _ & _ & Hn & _ & Hb) L name. rewrite <- Hb, <- Hn. apply L.
Qed.

Lemma new_entry_same (a b : Analyst) (va : ValenceArousal) (name : BufferName) :
  same_statistics a b -> new_entry a va name = new_entry b va name.
Proof.
  intros (_ & Hw & Hdw & _ & _ & Hn & _ & Hb).
  unfold new_entry. rewrite Hw, Hdw, Hn, !Hb. reflexivity.
Qed.

Lemma statistics_step_same (a b a1 b1 : Analyst) (va : ValenceArousal) :
  same_statistics a b -> statistics_step a va a1 -> statistics_step b va b1 ->
  same_statistics a1 b1.
Proof.
  intros H Sa Sb. pose proof H as (Hs & Hw & Hdw & Hv & Ha & Hn & Hl & Hb).
  unfold same_statistics.
  rewrite (step_sensitivity _ _ _ Sa), (step_sensitivity _ _ _ Sb),
    (step_window _ _ _ Sa), (step_window _ _ _ Sb),
    (step_dwindow _ _ _ Sa), (step_dwindow _ _ _ Sb),
    (step_v _ _ _ Sa), (step_v _ _ _ Sb), (step_a _ _ _ Sa), (step_a _ _ _ Sb),
    (step_reads _ _ _ Sa), (step_reads _ _ _ Sb),
    (step_last_read _ _ _ Sa), (step_last_read _ _ _ Sb).
  rewrite Hs, Hw, Hdw, Hv, Ha, Hn, Hl. repeat (split; [reflexivity|]).
  intros name. rewrite (step_buffers _ _ _ Sa), (step_buffers _ _ _ Sb), Hb.
  rewrite (new_entry_same a b va name H). reflexivity.
Qed.

Lemma lines_same (a b : Analyst) (k : Activator) :
  same_statistics a b ->
  data_line a k = data_line b k /\ control_line a k = control_line b k.
Proof.
  intros (Hs & _ & _ & _ & _ & _ & _ & Hb).
  unfold data_line, control_line, deviation_threshold, sigmoid_threshold,
    derivative_threshold.
  rewrite Hs, !Hb. split; reflexivity.
Qed.

Lemma detections_same (a b : Analyst) (t : timedelta) (k : Activator) :
  same_statistics a b ->
  length (timeline (_intersections a) k) = length (timeline (_intersections b) k) ->
  detections a t k = detections b t k.
Proof.
  intros H Ht. destruct (lines_same a b k H) as [Hd Hc].
  unfold detections. rewrite Hd, Hc, Ht. reflexivity.
Qed.


(** ** One ingestion appends at most one timestamp per kind *)

Lemma detections_cases (s : Analyst) (t : timedelta) (k : Activator) :
  detections s t k = [] \/
  detections s t k = [Opening] \/
  (detections s t k = [Closing] /\ interval_style k = true /\
   (length (timeline (_intersections s) k) mod 2 = 1)%nat).
Proof.
  unfold detections. destruct (Rltb (total_seconds t) DELAY); [auto|]. cbv zeta.
  destruct (is_intersection (data_line s k) (control_line s k)) eqn:Eo.
  - rewrite (is_intersection_exclusive _ _ Eo), andb_false_r. auto.
  - cbn [length app]. rewrite Nat.add_0_r.
    destruct (interval_style k); cbn [andb]; [|auto].
    destruct (length (timeline (_intersections s) k) mod 2 =? 1)%nat eqn:Ep;
      cbn [andb]; [|auto].
    apply Nat.eqb_eq in Ep.
    destruct (is_intersection (control_line s k) (data_line s k)); auto.
Qed.

Lemma detections_length (s : Analyst) (t : timedelta) (k : Activator) :
  (length (detections s t k) <= 1)%nat.
Proof.
  destruct (detections_cases s t k) as [E|[E|[E _]]]; rewrite E; simpl; lia.
Qed.

Lemma ingest_app (rs rs' : list Reading) (s : Analyst) :
  ingest s (rs ++ rs') = (s1 <- ingest s rs ;; ingest s1 rs').
Proof.
  revert s. induction rs as [|[va t] rs IH]; intros s; [reflexivity|].
  simpl. destruct (add_inference_result s va t); [apply IH | reflexivity].
Qed.

(** C10.  The ingestion that follows any session appends to the timeline of
    each kind at most one timestamp: what it appends is the list
    [detections], which has at most one entry, and has no closing entry for
    a point-style kind; the opening test and the closing test over the same
    two lines cannot both succeed. *)
Theorem one_timestamp_per_kind (sens : R) (w dw : nat) (rs : list Reading)
  (va : ValenceArousal) (t : timedelta) :
  exists s s1,
    session sens w dw rs = Ok s /\
    update_statistics s va = Ok s1 /\
    session sens w dw (rs ++ [(va, t)]) = Ok (find_intersections s1 t) /\
    (forall k,
        timeline (_intersections (find_intersections s1 t)) k =
          timeline (_intersections s) k ++ map (fun _ => t) (detections s1 t k) /\
        (length (detections s1 t k) <= 1)%nat /\
        (interval_style k = false -> ~ In Closing (detections s1 t k))) /\
    (forall v1 v2, is_intersection v1 v2 = true -> is_intersection v2 v1 = false).
Proof.
  destruct (session_invariant (fun _ => True) sens w dw I (fun _ _ _ _ _ _ _ => I) rs)
    as [s (E & L & _ & _)].
  destruct (add_inference_result_ok s va t L) as [s1 (St & L1 & Eu & Ea)].
  exists s, s1. split; [exact E|]. split; [exact Eu|]. split; [|split].
  - unfold session in *. rewrite ingest_app, E. simpl. rewrite Ea. reflexivity.
  - intros k. split; [|split].
    + rewrite find_intersections_timeline, (step_intersections _ _ _ St). reflexivity.
    + apply detections_length.
    + intros Hk Hin.
      destruct (detections_cases s1 t k) as [E'|[E'|[E' [Hi _]]]].
      * rewrite E' in Hin. destruct Hin.
      * rewrite E' in Hin. destruct Hin as [Hin|[]]. discriminate.
      * congruence.
  - apply is_intersection_exclusive.
Qed.

(** ** Closing entries sit at odd positions *)




(** ** The valence column evolves on its own *)

Lemma column0_length (l l' : list ValenceArousal) :
  column0 l = column0 l' -> length l = length l'.
Proof.
  intros H. apply (f_equal (@length R)) in H. unfold column0 in H.
  rewrite !length_map in H. exact H.
Qed.

Lemma column0_snoc (l l' : list ValenceArousal) (a a' : ValenceArousal) :
  column0 l = column0 l' -> valence a = valence a' ->
  column0 (l ++ [a]) = column0 (l' ++ [a']).
Proof. intros H Ha. unfold column0 in *. rewrite !map_app, H. simpl. rewrite Ha. reflexivity. Qed.

Lemma column0_nth (l l' : list ValenceArousal) (i : nat) :
  column0 l = column0 l' -> valence (nth i l va_zero) = valence (nth i l' va_zero).
Proof.
  intros H. change (valence (nth i l va_zero)) with (valence (nth i l (VA 0 0))).
  rewrite <- !(map_nth valence). fold (column0 l). fold (column0 l').
  rewrite H. reflexivity.
Qed.

Lemma column0_last_ (l l' : list ValenceArousal) (w : nat) :
  column0 l = column0 l' -> column0 (last_ l w) = column0 (last_ l' w).
Proof.
  intros H. unfold last_, column0 in *. rewrite <- !skipn_map, H.
  rewrite (column0_length l l' H). reflexivity.
Qed.

Lemma valence_axis0 (f : list R -> R) (l l' : list ValenceArousal) :
  column0 l = column0 l' -> valence (axis0 f l) = valence (axis0 f l').
Proof. intros H. unfold axis0, column0 in *. simpl. rewrite H. reflexivity. Qed.

Lemma valence_next_mean (n : nat) (gm gm' : Buffer) (a a' : ValenceArousal) :
  column0 gm = column0 gm' -> valence a = valence a' ->
  valence (next_mean n gm a) = valence (next_mean n gm' a').
Proof.
  intros H Ha. pose proof (column0_length _ _ H) as Hl.
  pose proof (column0_nth gm gm' (length gm - 1) H) as Hn.
  unfold next_mean. destruct gm as [|m gm], gm' as [|m' gm']; try discriminate;
    [exact Ha|].
  rewrite <- Hl. cbn -[nth length]. rewrite Hn, Ha. reflexivity.
Qed.

Lemma valence_next_variance (n : nat) (x x' gv gv' gm gm' : Buffer)
  (a a' : ValenceArousal) :
  column0 x = column0 x' -> column0 gv = column0 gv' -> column0 gm = column0 gm' ->
  valence a = valence a' ->
  valence (next_variance n x gv gm a) = valence (next_variance n x' gv' gm' a').
Proof.
  intros Hx Hv Hm Ha. unfold next_variance.
  rewrite <- (column0_length _ _ Hm), <- (column0_length _ _ Hv).
  destruct (length gm <? 2)%nat.
  - apply valence_axis0. exact Hx.
  - cbn -[nth length]. rewrite Ha.
    rewrite (column0_nth gv gv' _ Hv), !(column0_nth gm gm' _ Hm). reflexivity.
Qed.

Lemma valence_derivative_value (x x' : Buffer) :
  column0 x = column0 x' -> valence (derivative_value x) = valence (derivative_value x').
Proof.
  intros Hx. unfold derivative_value. rewrite <- (column0_length _ _ Hx).
  destruct (length x <? 2)%nat; [reflexivity|].
  cbn -[nth length]. rewrite !(column0_nth x x' _ Hx). reflexivity.
Qed.

Lemma valence_np_sqrt (v v' : ValenceArousal) :
  valence v = valence v' -> valence (np_sqrt v) = valence (np_sqrt v').
Proof. intros H. simpl. rewrite H. reflexivity. Qed.

Create HintDb valence.
#[local] Hint Resolve column0_snoc column0_last_ valence_axis0 valence_next_mean
  valence_next_variance valence_derivative_value valence_np_sqrt : valence.

Lemma new_entry_valence (a b : Analyst) (va vb : ValenceArousal) (name : BufferName) :
  valence_equal a b -> valence va = valence vb ->
  valence (new_entry a va name) = valence (new_entry b vb name).
Proof.
  intros (_ & Hw & Hdw & Hn & _ & Hb) Hv.
  unfold new_entry, np_mean, np_std. cbv zeta. rewrite Hw, Hdw, Hn.
  destruct name; auto 8 with valence.
Qed.

Lemma statistics_step_valence (a b a1 b1 : Analyst) (va vb : ValenceArousal) :
  valence_equal a b -> valence va = valence vb ->
  statistics_step a va a1 -> statistics_step b vb b1 ->
  valence_equal a1 b1.
Proof.
  intros H Hv Sa Sb. pose proof H as (Hs & Hw & Hdw & Hn & Hi & Hb).
  unfold valence_equal.
  rewrite (step_sensitivity _ _ _ Sa), (step_sensitivity _ _ _ Sb),
    (step_window _ _ _ Sa), (step_window _ _ _ Sb),
    (step_dwindow _ _ _ Sa), (step_dwindow _ _ _ Sb),
    (step_reads _ _ _ Sa), (step_reads _ _ _ Sb),
    (step_intersections _ _ _ Sa), (step_intersections _ _ _ Sb).
  rewrite Hs, Hw, Hdw, Hn, Hi. repeat (split; [reflexivity|]).
  intros name. rewrite (step_buffers _ _ _ Sa), (step_buffers _ _ _ Sb).
  apply column0_snoc; [apply Hb|]. apply new_entry_valence; assumption.
Qed.

Lemma column0_np_scale (a a' : list ValenceArousal) (s : R) :
  column0 a = column0 a' -> column0 (np_scale a s) = column0 (np_scale a' s).
Proof.
  revert a'. induction a as [|x a IH]; intros [|x' a'] H; try discriminate;
    [reflexivity|].
  simpl in *. injection H as Hx Ha. rewrite Hx. f_equal. apply IH. exact Ha.
Qed.

Lemma column0_np_sub (a a' b b' : list ValenceArousal) :
  column0 a = column0 a' -> column0 b = column0 b' ->
  column0 (np_sub a b) = column0 (np_sub a' b').
Proof.
  revert a' b b'. induction a as [|x a IH]; intros [|x' a'] b b' Ha Hb;
    try discriminate; [reflexivity|].
  destruct b as [|y b], b' as [|y' b']; try discriminate; [reflexivity|].
  simpl in *. injection Ha as Hx Ha. injection Hb as Hy Hb.
  rewrite Hx, Hy. f_equal. apply IH; assumption.
Qed.

Lemma column0_sigmoid (a a' : list ValenceArousal) :
  column0 a = column0 a' -> column0 (sigmoid a) = column0 (sigmoid a').
Proof.
  revert a'. induction a as [|x a IH]; intros [|x' a'] H; try discriminate;
    [reflexivity|].
  simpl in *. injection H as Hx Ha. rewrite Hx. f_equal. apply IH. exact Ha.
Qed.

#[local] Hint Resolve column0_np_scale column0_np_sub column0_sigmoid : valence.

Lemma lines_valence (a b : Analyst) (k : Activator) :
  valence_equal a b ->
  data_line a k = data_line b k /\ control_line a k = control_line b k.
Proof.
  intros (Hs & _ & _ & _ & _ & Hb).
  unfold data_line, control_line, deviation_threshold, sigmoid_threshold,
    derivative_threshold, np.
  rewrite Hs. split; destruct k; auto 6 with valence.
Qed.

Lemma find_intersections_valence (a b : Analyst) (t : timedelta) :
  valence_equal a b -> valence_equal (find_intersections a t) (find_intersections b t).
Proof.
  intros H. pose proof H as (Hs & Hw & Hdw & Hn & Hi & Hb).
  pose proof (fun k => proj1 (lines_valence a b k H)) as Hd.
  pose proof (fun k => proj2 (lines_valence a b k H)) as Hc.
  pose proof (Hd global_deviation) as D1. pose proof (Hd global_rapid_deprecation) as D2.
  pose proof (Hc global_deviation) as C1. pose proof (Hc local_deviation) as C2.
  pose proof (Hc global_sigmoid_deviation) as C3.
  pose proof (Hc local_sigmoid_deviation) as C4.
  pose proof (Hc global_rapid_deprecation) as C5.
  pose proof (Hc local_rapid_deprecation) as C6.
  cbn [data_line control_line] in D1, D2, C1, C2, C3, C4, C5, C6.
  unfold find_intersections. destruct (Rltb (total_seconds t) DELAY); [exact H|].
  cbv zeta. rewrite D1, D2, C1, C2, C3, C4, C5, C6, Hi.
  repeat split; try assumption.
Qed.

Lemma ingest_valence (rs1 : list Reading) :
  forall (rs2 : list Reading) (a b : Analyst),
    lockstep a -> lockstep b -> valence_equal a b ->
    map snd rs1 = map snd rs2 ->
    map (fun r => valence (fst r)) rs1 = map (fun r => valence (fst r)) rs2 ->
    exists a' b', ingest a rs1 = Ok a' /\ ingest b rs2 = Ok b' /\ valence_equal a' b'.
Proof.
  induction rs1 as [|[va t] rs1 IH]; intros [|[vb t'] rs2] a b La Lb H Ht Hv;
    try discriminate.
  - exists a, b. auto.
  - simpl in Ht, Hv. injection Ht as Ht Ht'. injection Hv as Hv Hv'. subst t'.
    destruct (add_inference_result_ok a va t La) as [a1 (Sa & La1 & _ & Ea)].
    destruct (add_inference_result_ok b vb t Lb) as [b1 (Sb & Lb1 & _ & Eb)].
    pose proof (statistics_step_valence a b a1 b1 va vb H Hv Sa Sb) as H1.
    destruct (IH rs2 (find_intersections a1 t) (find_intersections b1 t))
      as [a' [b' (Ea' & Eb' & H')]];
      auto using find_intersections_lockstep, find_intersections_valence.
    exists a', b'. simpl. rewrite Ea, Eb. simpl. auto.
Qed.

(** C9.  Two sessions with the same parameters whose readings have the same
    timestamps and the same valence, whatever their arousal, both run to
    the end and have the same event timeline. *)
Theorem events_ignore_arousal (sens : R) (w dw : nat) (rs1 rs2 : list Reading) :
  map snd rs1 = map snd rs2 ->
  map (fun r => valence (fst r)) rs1 = map (fun r => valence (fst r)) rs2 ->
  exists s1 s2,
    session sens w dw rs1 = Ok s1 /\ session sens w dw rs2 = Ok s2 /\
    events s1 = events s2.
Proof.
  intros Ht Hv.
  destruct (ingest_valence rs1 rs2 (__init__ sens w dw) (__init__ sens w dw))
    as [s1 [s2 (E1 & E2 & H)]]; auto using lockstep_init.
  - repeat split; reflexivity.
  - exists s1, s2. split; [exact E1|]. split; [exact E2|].
    destruct H as (_ & _ & _ & _ & Hi & _). unfold events. rewrite Hi. reflexivity.
Qed.

(** ** The warm-up *)

Lemma find_intersections_warmup (s : Analyst) (t : timedelta) :
  total_seconds t < DELAY -> find_intersections s t = s.
Proof. intros H. unfold find_intersections. rewrite Rltb_true by exact H. reflexivity. Qed.

Lemma detections_opening (s : Analyst) (t : timedelta) (k : Activator) :
  DELAY <= total_seconds t ->
  is_intersection (data_line s k) (control_line s k) = true ->
  In Opening (detections s t k).
Proof.
  intros Ht Ho. unfold detections. rewrite Rltb_false by lra. cbv zeta.
  rewrite Ho. left. reflexivity.
Qed.

Lemma timeline_in_events (s : Analyst) (t : timedelta) (k : Activator) :
  In t (timeline (_intersections s) k) -> In (t, k) (events s).
Proof.
  unfold events, timeline. induction (_intersections s) as [|[k' l] d IH]; simpl.
  - intros [].
  - intros H. apply in_or_app. destruct (Activator_eqb k' k) eqn:E.
    + apply Activator_eqb_eq in E. subst k'. left.
      apply in_map with (f := fun t0 => (t0, k)) in H. exact H.
    + right. apply IH. exact H.
Qed.

(** C3, amended.  An ingestion with a timestamp below 30 seconds, after any
    session, leaves the timeline and the events as they were and updates the
    read counter and every buffer, and its outcome differs from that of the
    same reading at a timestamp of 30 seconds or more in the timeline only;
    at 30 seconds or more, 30 included, a crossing from above of any kind is
    recorded. *)
Theorem warm_up_suppression (sens : R) (w dw : nat) (rs : list Reading)
  (va : ValenceArousal) (t t' : timedelta) :
  total_seconds t < DELAY ->
  DELAY <= total_seconds t' ->
  exists s a b,
    session sens w dw rs = Ok s /\
    session sens w dw (rs ++ [(va, t)]) = Ok a /\
    session sens w dw (rs ++ [(va, t')]) = Ok b /\
    _intersections a = _intersections s /\
    events a = events s /\
    same_statistics a b /\
    _number_of_reads a = (_number_of_reads s + 1)%nat /\
    (forall name, buffers a name = buffers s name ++ [new_entry s va name]) /\
    (forall k, is_intersection (data_line b k) (control_line b k) = true ->
               In (t', k) (events b)).
Proof.
  intros Ht Ht'.
  destruct (session_invariant (fun _ => True) sens w dw I (fun _ _ _ _ _ _ _ => I) rs)
    as [s (E & L & _ & _)].
  destruct (add_inference_result_ok s va t L) as [s1 (St & L1 & Eu & Ea)].
  destruct (add_inference_result_ok s va t' L) as [s1' (_ & _ & Eu' & Eb)].
  assert (Hs : s1' = s1) by congruence.
  subst s1'. clear Eu'.
  rewrite (find_intersections_warmup s1 t Ht) in Ea.
  exists s, s1, (find_intersections s1 t').
  split; [exact E|].
  split; [unfold session in *; rewrite ingest_app, E; simpl; rewrite Ea; reflexivity|].
  split; [unfold session in *; rewrite ingest_app, E; simpl; rewrite Eb; reflexivity|].
  split; [apply (step_intersections _ _ _ St)|].
  split; [unfold events; rewrite (step_intersections _ _ _ St); reflexivity|].
  split; [apply same_statistics_sym, find_intersections_frame|].
  split; [apply (step_reads _ _ _ St)|].
  split; [apply (step_buffers _ _ _ St)|].
  intros k Ho. apply timeline_in_events. rewrite find_intersections_timeline.
  apply in_or_app. right.
  destruct (lines_same (find_intersections s1 t') s1 k (find_intersections_frame s1 t'))
    as [Hd Hc].
  rewrite Hd, Hc in Ho.
  pose proof (detections_opening s1 t' k Ht' Ho) as Hin.
  apply (in_map (fun _ => t')) in Hin. exact Hin.
Qed.

(** ** Running a concrete session *)


(** Evaluation that leaves the arithmetic of [R] alone. *)
Ltac rcbv :=
  cbv -[Rplus Rminus Rmult Rdiv Ropp Rinv sqrt exp INR IZR Rltb Rlt_dec].

Ltac rnorm c :=
  eval cbv -[Rplus Rminus Rmult Rdiv Ropp Rinv sqrt exp INR IZR Rltb Rlt_dec] in c.

(** Every comparison of two closed reals that linear arithmetic settles. *)
Ltac decide_Rltb :=
  repeat match goal with
  | |- context [Rltb ?a ?b] =>
      first [ rewrite (Rltb_true a b) by (cbv [INR]; lra)
            | rewrite (Rltb_false a b) by (cbv [INR]; lra) ]
  end.

(** The state after the statistics of one ingestion, every buffer written
    out: [new_entry] evaluated on a state of the same form. *)
Ltac next_state s va :=
  let b1 := rnorm (buffers s _va_buffer ++ [new_entry s va _va_buffer]) in
  let b2 := rnorm (buffers s _va_moving_average
                   ++ [new_entry s va _va_moving_average]) in
  let b3 := rnorm (buffers s _va_mean_local_buffer
                   ++ [new_entry s va _va_mean_local_buffer]) in
  let b4 := rnorm (buffers s _va_std_local_buffer
                   ++ [new_entry s va _va_std_local_buffer]) in
  let b5 := rnorm (buffers s _va_mean_global_buffer
                   ++ [new_entry s va _va_mean_global_buffer]) in
  let b6 := rnorm (buffers s _va_variance_global_buffer
                   ++ [new_entry s va _va_variance_global_buffer]) in
  let b7 := rnorm (buffers s _va_std_global_buffer
                   ++ [new_entry s va _va_std_global_buffer]) in
  let b8 := rnorm (buffers s _derivative_buffer
                   ++ [new_entry s va _derivative_buffer]) in
  let b9 := rnorm (buffers s _derivative_moving_average
                   ++ [new_entry s va _derivative_moving_average]) in
  let b10 := rnorm (buffers s _local_derivative_mean
                    ++ [new_entry s va _local_derivative_mean]) in
  let b11 := rnorm (buffers s _local_derivative_std
                    ++ [new_entry s va _local_derivative_std]) in
  let b12 := rnorm (buffers s _global_derivative_mean
                    ++ [new_entry s va _global_derivative_mean]) in
  let b13 := rnorm (buffers s _global_derivative_variance
                    ++ [new_entry s va _global_derivative_variance]) in
  let b14 := rnorm (buffers s _global_derivative_std
                    ++ [new_entry s va _global_derivative_std]) in
  let sens := rnorm (sensitivity s) in
  let w := rnorm (moving_average_size s) in
  let dw := rnorm (derivative_moving_average_size s) in
  let v := rnorm (__v s ++ [valence va]) in
  let a := rnorm (__a s ++ [arousal va]) in
  let n := rnorm (_number_of_reads s + 1)%nat in
  let d := rnorm (_intersections s) in
  let l := rnorm (_last_deviation_read s) in
  constr:(mkAnalyst sens w dw v a n d l
    (fun name =>
       match name with
       | _va_buffer => b1
       | _va_moving_average => b2
       | _va_mean_local_buffer => b3
       | _va_std_local_buffer => b4
       | _va_mean_global_buffer => b5
       | _va_variance_global_buffer => b6
       | _va_std_global_buffer => b7
       | _derivative_buffer => b8
       | _derivative_moving_average => b9
       | _local_derivative_mean => b10
       | _local_derivative_std => b11
       | _global_derivative_mean => b12
       | _global_derivative_variance => b13
       | _global_derivative_std => b14
       end)).


Ltac statistics_step_now :=
  constructor; try reflexivity; intros name; destruct name; reflexivity.

Ltac detections_now := repeat (rcbv; decide_Rltb); reflexivity.




(** C3, counterexample.  After two readings during the warm-up no event is
    on record; the third reading arrives at exactly 30 seconds, which does
    not exceed the delay, and its crossing is recorded. *)
Lemma detection_at_thirty_seconds :
  exists s s',
    session 0 1 1 before_thirty = Ok s /\
    add_inference_result s (VA (-2) 0) (sec 30) = Ok s' /\
    total_seconds (sec 30) = DELAY /\
    ~ total_seconds (sec 30) > DELAY /\
    events s = [] /\
    In (sec 30, local_deviation) (events s') /\
    events s' <> events s.
Proof.
  assert (W28 : total_seconds (sec 28) < DELAY)
    by (unfold total_seconds, sec, DELAY; simpl; lra).
  assert (W29 : total_seconds (sec 29) < DELAY)
    by (unfold total_seconds, sec, DELAY; simpl; lra).
  assert (W30 : total_seconds (sec 30) = DELAY)
    by (unfold total_seconds, sec, DELAY; simpl; lra).
  destruct (add_inference_result_ok (__init__ 0 1 1) (VA 0 0) (sec 28)
              (lockstep_init 0 1 1)) as [s1 (St1 & L1 & _ & E1)].
  rewrite (find_intersections_warmup s1 _ W28) in E1.
  destruct (add_inference_result_ok s1 (VA 2 0) (sec 29) L1) as [s2 (St2 & L2 & _ & E2)].
  rewrite (find_intersections_warmup s2 _ W29) in E2.
  destruct (add_inference_result_ok s2 (VA (-2) 0) (sec 30) L2)
    as [s3 (St3 & L3 & _ & E3)].
  assert (I2 : _intersections s2 = [])
    by (rewrite (step_intersections _ _ _ St2), (step_intersections _ _ _ St1);
        reflexivity).
  assert (Hev : events s2 = []) by (unfold events; rewrite I2; reflexivity).
  assert (Hin : In (sec 30, local_deviation) (events (find_intersections s3 (sec 30)))).
  { apply timeline_in_events. rewrite find_intersections_timeline.
    apply in_or_app. right.
    let c0 := rnorm (__init__ 0 1 1) in
    let c1 := next_state c0 (VA 0 0) in
    let c2 := next_state c1 (VA 2 0) in
    let c3 := next_state c2 (VA (-2) 0) in
    assert (H1 : same_statistics s1 c1)
      by (apply (statistics_step_same (__init__ 0 1 1) c0 s1 c1 (VA 0 0));
          [apply same_statistics_refl | exact St1 | statistics_step_now]);
    assert (H2 : same_statistics s2 c2)
      by (apply (statistics_step_same s1 c1 s2 c2 (VA 2 0));
          [exact H1 | exact St2 | statistics_step_now]);
    assert (H3 : same_statistics s3 c3)
      by (apply (statistics_step_same s2 c2 s3 c3 (VA (-2) 0));
          [exact H2 | exact St3 | statistics_step_now]);
    rewrite (detections_same s3 c3 (sec 30) local_deviation H3)
      by (rewrite (step_intersections _ _ _ St3), I2; reflexivity);
    replace (detections c3 (sec 30) local_deviation) with [Opening]
      by (symmetry; detections_now).
    left. reflexivity. }
  exists s2, (find_intersections s3 (sec 30)).
  split; [unfold session, before_thirty; cbn [ingest]; rewrite E1; cbn [bind ingest];
          rewrite E2; reflexivity|].
  split; [exact E3|]. split; [exact W30|]. split; [rewrite W30; lra|].
  split; [exact Hev|]. split; [exact Hin|].
  rewrite Hev. intros H. rewrite H in Hin. destruct Hin.
Qed.

(** ** The fallback of the variance *)

Lemma var1_singleton (x : R) : var1 [x] = 0.
Proof. unfold var1, mean1, np_sum. simpl. field. Qed.

Lemma np_var_singleton (v : ValenceArousal) : np_var [v] = VA 0 0.
Proof. unfold np_var, axis0. simpl. rewrite !var1_singleton. reflexivity. Qed.


(** ** The theorems at concrete sessions *)

Lemma incremental_estimator_recurrence_witness :
  (1 < length calm)%nat /\
  exists s,
    session 0 1 1 calm = Ok s /\
    nth 1 (buffers s _va_mean_global_buffer) va_zero =
      va_over (va_add (va_times (nth 0 (buffers s _va_mean_global_buffer) va_zero) 1)
                 (VA 3 0)) 2.
Proof.
  split; [simpl; lia|].
  destruct (incremental_estimator_recurrence 0 1 1 calm 1) as [s (E & _ & H & _)];
    [simpl; lia|].
  exists s. split; [exact E|].
  destruct H as (_ & H & _). destruct (H (le_n 1)) as [Hm _]. exact Hm.
Defined.

Lemma threshold_curves_witness :
  (1 < length calm)%nat /\
  exists s,
    session 0 1 1 calm = Ok s /\
    nth 1 (deviation_threshold s (buffers s _va_std_global_buffer)) va_zero =
      va_sub (arithmetic_mean [VA 1 0; VA 3 0])
        (va_scale (nth 1 (buffers s _va_std_global_buffer) va_zero) 0).
Proof.
  split; [simpl; lia|].
  destruct (threshold_curves 0 1 1 calm 1) as [s (E & Hl & H)]; [simpl; lia|].
  exists s. split; [exact E|].
  destruct (H (buffers s _va_std_global_buffer) (Hl _va_std_global_buffer)) as [Hd _].
  exact Hd.
Defined.

Lemma derivative_series_witness :
  (1 < length calm)%nat /\
  exists s,
    session 0 1 1 calm = Ok s /\
    nth 1 (buffers s _derivative_buffer) va_zero = va_sub (VA 3 0) (VA 1 0).
Proof.
  split; [simpl; lia|].
  destruct (derivative_series 0 1 1 calm 1) as [s (E & H & _)]; [simpl; lia|].
  exists s. split; [exact E | exact H].
Defined.

Lemma moving_average_window_witness :
  (1 < length calm)%nat /\
  exists s,
    session 0 2 1 calm = Ok s /\
    nth 1 (buffers s _va_moving_average) va_zero = arithmetic_mean [VA 1 0; VA 3 0].
Proof.
  split; [simpl; lia|].
  destruct (moving_average_window 0 2 1 calm 1) as [s (E & H & _)]; [simpl; lia|].
  exists s. split; [exact E | exact H].
Defined.

Lemma events_ignore_arousal_witness :
  map snd calm = map snd excited /\
  map (fun r => valence (fst r)) calm = map (fun r => valence (fst r)) excited /\
  exists s1 s2,
    session 0 1 1 calm = Ok s1 /\ session 0 1 1 excited = Ok s2 /\
    events s1 = events s2.
Proof.
  split; [reflexivity|]. split; [reflexivity|].
  apply (events_ignore_arousal 0 1 1 calm excited); reflexivity.
Defined.

Lemma warm_up_suppression_witness :
  total_seconds (Timedelta 29500000) < DELAY /\
  DELAY <= total_seconds (sec 30) /\
  exists s a,
    session 0 1 1 before_thirty = Ok s /\
    session 0 1 1 (before_thirty ++ [(VA (-2) 0, Timedelta 29500000)]) = Ok a /\
    events a = events s.
Proof.
  assert (H29 : total_seconds (Timedelta 29500000) < DELAY)
    by (unfold total_seconds, DELAY; simpl; lra).
  assert (H30 : DELAY <= total_seconds (sec 30))
    by (unfold total_seconds, sec, DELAY; simpl; lra).
  split; [exact H29|]. split; [exact H30|].
  destruct (warm_up_suppression 0 1 1 before_thirty (VA (-2) 0)
              (Timedelta 29500000) (sec 30) H29 H30)
    as [s [a [b (E & Ea & _ & _ & Hev & _)]]].
  exists s, a. split; [exact E|]. split; [exact Ea | exact Hev].
Defined.

(** ** The crossing test and the window on small inputs *)

Example is_intersection_crossing : is_intersection [2; -2] [1; 0] = true.
Proof. rcbv. decide_Rltb. reflexivity. Qed.

Example is_intersection_touching : is_intersection [0; 5] [0; 1] = false.
Proof. rcbv. decide_Rltb. reflexivity. Qed.

Example is_intersection_one_sample : is_intersection_result [-2] [0] = Ok false.
Proof. rcbv. decide_Rltb. reflexivity. Qed.

Example is_intersection_no_sample : is_intersection_result [] [0; 1] = Ok false.
Proof. reflexivity. Qed.

Example last_of_short_buffer : last_ [VA 1 2] 5 = [VA 1 2].
Proof. reflexivity. Qed.

Example last_of_long_buffer : last_ [VA 1 2; VA 3 4; VA 5 6] 2 = [VA 3 4; VA 5 6].
Proof. reflexivity. Qed.

Example parity_gate_closed :
  add_intersect [] (sec 31) [0; 2] [1; 0] global_deviation true
  = [(global_deviation, [])].
Proof. reflexivity. Qed.

Example parity_gate_open :
  add_intersect [(global_deviation, [sec 30])] (sec 31) [2; -2] [1; 0]
    global_deviation true
  = [(global_deviation, [sec 30; sec 31])].
Proof.
  unfold add_intersect. cbn -[is_intersection].
  rewrite is_intersection_crossing. reflexivity.
Qed.

(** * Further properties of the Analyst *)

(** ** The raw series and the read counter *)

Lemma raw_series_step (s s1 : Analyst) (va : ValenceArousal) :
  statistics_step s va s1 ->
  __v s = map valence (buffers s _va_buffer) /\
  __a s = map arousal (buffers s _va_buffer) ->
  __v s1 = map valence (buffers s1 _va_buffer) /\
  __a s1 = map arousal (buffers s1 _va_buffer).
Proof.
  intros St [Hv Ha].
  rewrite (step_v _ _ _ St), (step_a _ _ _ St), (step_buffers _ _ _ St).
  cbn [new_entry]. rewrite !map_app, Hv, Ha. split; reflexivity.
Qed.

(** The accessors [valence] and [arousal] return the valence and the arousal
    of the ingested readings, in order, one entry per reading, and the read
    counter is the number of readings. *)
Theorem raw_series (sens : R) (w dw : nat) (rs : list Reading) :
  exists s,
    session sens w dw rs = Ok s /\
    Accessor.valence s = map (fun r => valence (fst r)) rs /\
    Accessor.arousal s = map (fun r => arousal (fst r)) rs /\
    _number_of_reads s = length rs /\
    length (Accessor.valence s) = length rs /\
    length (Accessor.arousal s) = length rs.
Proof.
  destruct (session_invariant
              (fun s => __v s = map valence (buffers s _va_buffer) /\
                        __a s = map arousal (buffers s _va_buffer)) sens w dw)
    with (rs := rs) as [s (E & L & Sh & Hv & Ha)].
  - split; reflexivity.
  - intros s va t s1 L H St.
    destruct (find_intersections_frame s1 t) as (_ & _ & _ & Fv & Fa & _ & _ & Fb).
    rewrite Fv, Fa, Fb. eapply raw_series_step; eauto.
  - destruct Sh as (_ & _ & _ & Hr & Hx).
    exists s. unfold Accessor.valence, Accessor.arousal.
    rewrite Hv, Ha, Hx, !map_map, !length_map.
    split; [exact E|]. repeat (split; [reflexivity|]). split; [exact Hr|].
    split; reflexivity.
Qed.

(** ** Buffers and timelines only grow *)

Lemma ingest_append_only (s : Analyst) (rs : list Reading) :
  lockstep s ->
  exists s',
    ingest s rs = Ok s' /\ lockstep s' /\
    (forall name, exists more,
        buffers s' name = buffers s name ++ more /\ length more = length rs) /\
    (forall k, exists more,
        timeline (_intersections s') k = timeline (_intersections s) k ++ more).
Proof.
  intros L.
  destruct (ingest_induction
              (fun done x =>
                 (forall name, exists more,
                     buffers x name = buffers s name ++ more /\
                     length more = length done) /\
                 (forall k, exists more,
                     timeline (_intersections x) k
                     = timeline (_intersections s) k ++ more)))
    with (rs := rs) (done := @nil Reading) (s := s) as [s' (E & L' & Hb & Ht)].
  - intros done x va t x1 Lx [Hb Ht] St. split.
    + intros name. destruct (Hb name) as [more [Hm Hl]].
      exists (more ++ [new_entry x va name]).
      rewrite find_intersections_buffers, (step_buffers _ _ _ St), Hm.
      rewrite <- app_assoc, !length_app, Hl. auto.
    + intros k. destruct (Ht k) as [more Hm].
      exists (more ++ map (fun _ => t) (detections x1 t k)).
      rewrite find_intersections_timeline, (step_intersections _ _ _ St), Hm.
      rewrite <- app_assoc. reflexivity.
  - exact L.
  - split; [intros name | intros k]; exists []; rewrite app_nil_r; auto.
  - exists s'. auto.
Qed.

(** Ingesting further readings appends to every buffer exactly one entry per
    reading and only appends to every timeline: what a session has recorded
    is a prefix of what any longer session records. *)
Theorem append_only (sens : R) (w dw : nat) (rs more_rs : list Reading) :
  exists s s',
    session sens w dw rs = Ok s /\
    session sens w dw (rs ++ more_rs) = Ok s' /\
    (forall name,
        firstn (length rs) (buffers s' name) = buffers s name /\
        length (buffers s' name) = (length rs + length more_rs)%nat) /\
    (forall k, exists more,
        timeline (_intersections s') k = timeline (_intersections s) k ++ more).
Proof.
  destruct (session_invariant (fun _ => True) sens w dw I (fun _ _ _ _ _ _ _ => I) rs)
    as [s (E & L & Sh & _)].
  destruct (ingest_append_only s more_rs L) as [s' (E' & L' & Hb & Ht)].
  destruct Sh as (_ & _ & _ & Hr & _).
  exists s, s'. split; [exact E|].
  split; [unfold session in *; rewrite ingest_app, E; exact E'|].
  split; [|exact Ht].
  intros name. destruct (Hb name) as [more [Hm Hl]].
  assert (Hlen : length (buffers s name) = length rs) by (rewrite L; exact Hr).
  rewrite Hm, length_app, Hl, Hlen. split; [|reflexivity].
  rewrite <- Hlen, firstn_app, Nat.sub_diag, firstn_all. simpl. apply app_nil_r.
Qed.

(** ** Statistics do not depend on the timestamps *)

Lemma ingest_same_readings (rs1 : list Reading) :
  forall (rs2 : list Reading) (a b : Analyst),
    lockstep a -> same_statistics a b -> map fst rs1 = map fst rs2 ->
    exists a' b', ingest a rs1 = Ok a' /\ ingest b rs2 = Ok b' /\ same_statistics a' b'.
Proof.
  induction rs1 as [|[va t] rs1 IH]; intros [|[vb t'] rs2] a b La H Hx;
    try discriminate.
  - exists a, b. auto.
  - simpl in Hx. injection Hx as Hv Hx. subst vb.
    pose proof (same_statistics_lockstep a b H La) as Lb.
    destruct (add_inference_result_ok a va t La) as [a1 (Sa & La1 & _ & Ea)].
    destruct (add_inference_result_ok b va t' Lb) as [b1 (Sb & Lb1 & _ & Eb)].
    pose proof (statistics_step_same a b a1 b1 va H Sa Sb) as H1.
    destruct (IH rs2 (find_intersections a1 t) (find_intersections b1 t'))
      as [a' [b' (Ea' & Eb' & H')]].
    + apply find_intersections_lockstep, La1.
    + eapply same_statistics_trans; [apply find_intersections_frame|].
      eapply same_statistics_trans; [exact H1|].
      apply same_statistics_sym, find_intersections_frame.
    + exact Hx.
    + exists a', b'. simpl. rewrite Ea, Eb. simpl. auto.
Qed.

(** Two sessions fed the same readings at different timestamps record the
    same raw series, read counter and buffers: the timestamps reach the
    timeline only. *)
Theorem statistics_ignore_time (sens : R) (w dw : nat) (rs1 rs2 : list Reading) :
  map fst rs1 = map fst rs2 ->
  exists s1 s2,
    session sens w dw rs1 = Ok s1 /\ session sens w dw rs2 = Ok s2 /\
    same_statistics s1 s2.
Proof.
  intros Hx.
  apply (ingest_same_readings rs1 rs2 (__init__ sens w dw) (__init__ sens w dw));
    auto using lockstep_init, same_statistics_refl.
Qed.

(** ** The incremental estimator computes the cumulative moments *)

Lemma np_sum_app (l m : list R) : np_sum (l ++ m) = np_sum l + np_sum m.
Proof.
  unfold np_sum. induction l as [|x l IH]; simpl; [lra|]. rewrite IH. lra.
Qed.

Lemma INR_succ_pos (n : nat) : 0 < INR (n + 1).
Proof. rewrite Nat.add_1_r. apply lt_0_INR. lia. Qed.

Lemma mean1_snoc (l : list R) (x : R) :
  l <> [] ->
  (mean1 l * INR (length l) + x) / INR (length l + 1) = mean1 (l ++ [x]).
Proof.
  intros Hl. unfold mean1. rewrite np_sum_app, length_app. simpl.
  assert (Hn : 0 < INR (length l))
    by (apply lt_0_INR; destruct l; [contradiction | simpl; lia]).
  pose proof (INR_succ_pos (length l)) as Hn1.
  field. split; lra.
Qed.

Lemma sum_squared_deviations (l : list R) (m : R) :
  np_sum (map (fun x => (x - m) * (x - m)) l)
  = np_sum (map (fun x => x * x) l) - 2 * m * np_sum l + INR (length l) * m * m.
Proof.
  unfold np_sum. induction l as [|x l IH].
  - simpl. lra.
  - cbn [map fold_right length]. rewrite IH, S_INR. lra.
Qed.

Lemma var1_moments (l : list R) :
  l <> [] ->
  var1 l = np_sum (map (fun x => x * x) l) / INR (length l)
           - (np_sum l / INR (length l)) * (np_sum l / INR (length l)).
Proof.
  intros Hl. unfold var1. unfold mean1 at 1. rewrite length_map.
  rewrite sum_squared_deviations. unfold mean1.
  assert (Hn : 0 < INR (length l))
    by (apply lt_0_INR; destruct l; [contradiction | simpl; lia]).
  field. lra.
Qed.

Lemma var1_snoc (l : list R) (x : R) :
  l <> [] ->
  (var1 l * INR (length l) + (x - mean1 (l ++ [x])) * (x - mean1 l))
    / INR (length l + 1)
  = var1 (l ++ [x]).
Proof.
  intros Hl.
  assert (Hl' : l ++ [x] <> []) by (destruct l; discriminate).
  rewrite (var1_moments l Hl), (var1_moments (l ++ [x]) Hl').
  unfold mean1. rewrite map_app, !np_sum_app, length_app. cbn [map length].
  assert (Hn : 0 < INR (length l))
    by (apply lt_0_INR; destruct l; [contradiction | simpl; lia]).
  pose proof (INR_succ_pos (length l)) as Hn1.
  change (np_sum [x * x]) with (x * x + 0). change (np_sum [x]) with (x + 0).
  rewrite plus_INR in *. change (INR 1) with 1 in *.
  field. split; lra.
Qed.

Lemma np_mean_singleton (v : ValenceArousal) : np_mean [v] = v.
Proof.
  destruct v as [a b]. unfold np_mean, axis0, mean1, np_sum. simpl.
  f_equal; field.
Qed.

Lemma nonempty_length {A : Type} (l : list A) : (1 <= length l)%nat -> l <> [].
Proof. destruct l; simpl; [lia | discriminate]. Qed.

Lemma next_mean_exact (x gm : list ValenceArousal) (a : ValenceArousal) :
  cumulative_of np_mean x gm ->
  next_mean (length x) gm a = np_mean (x ++ [a]).
Proof.
  intros [Hl H]. unfold next_mean. destruct gm as [|m gm].
  - destruct x; [|discriminate]. symmetry. apply np_mean_singleton.
  - assert (Hx : (1 <= length x)%nat) by (rewrite <- Hl; simpl; lia).
    rewrite Hl, H by lia.
    replace (S (length x - 1)) with (length x) by lia. rewrite firstn_all.
    unfold np_mean, axis0, va_over, va_add, va_times, va_map, va_map2.
    cbn [valence arousal]. rewrite !map_app. cbn [map].
    rewrite <- !mean1_snoc by (apply nonempty_length; rewrite length_map; exact Hx).
    rewrite !length_map. reflexivity.
Qed.

Lemma next_variance_exact (x xr gm gv : list ValenceArousal) (a : ValenceArousal) :
  (length x = 0%nat -> np_var xr = np_var [a]) ->
  cumulative_of np_mean x gm ->
  cumulative_of np_var x gv ->
  next_variance (length x) xr gv (gm ++ [next_mean (length x) gm a]) a
  = np_var (x ++ [a]).
Proof.
  intros H0 Hm [Hlv Hv]. pose proof Hm as [Hlm Hmn].
  unfold next_variance. rewrite length_app, Hlm. cbn [length].
  destruct (Nat.eq_dec (length x) 0) as [E0|E0].
  - rewrite E0. cbn [Nat.add Nat.ltb Nat.leb]. apply H0 in E0 as Hvar.
    destruct x; [|discriminate]. exact Hvar.
  - replace (length x + 1 <? 2)%nat with false by (symmetry; apply Nat.ltb_ge; lia).
    rewrite Hlv.
    replace (length x + 1 - 1)%nat with (length x) by lia.
    rewrite (nth_snoc_at _ gm _ (length x)) by exact Hlm.
    replace (length x + 1 - 2)%nat with (length x - 1)%nat by lia.
    rewrite nth_snoc_old by lia.
    rewrite Hv, Hmn by lia.
    replace (S (length x - 1)) with (length x) by lia. rewrite firstn_all.
    rewrite (next_mean_exact x gm a Hm).
    unfold np_var, np_mean, axis0, va_over, va_add, va_times, va_mul, va_sub,
      va_map, va_map2.
    cbn [valence arousal]. rewrite !map_app. cbn [map].
    rewrite <- !var1_snoc by (apply nonempty_length; rewrite length_map; lia).
    rewrite !length_map. reflexivity.
Qed.

Lemma exact_estimator_snoc (x xr gm gv gs : list ValenceArousal) (a : ValenceArousal) :
  (length x = 0%nat -> np_var xr = np_var [a]) ->
  exact_estimator x gm gv gs ->
  exact_estimator (x ++ [a])
    (gm ++ [next_mean (length x) gm a])
    (gv ++ [next_variance (length x) xr gv (gm ++ [next_mean (length x) gm a]) a])
    (gs ++ [np_sqrt
              (next_variance (length x) xr gv (gm ++ [next_mean (length x) gm a]) a)]).
Proof.
  intros H0 (Hm & Hv & Hs).
  rewrite (next_variance_exact x xr gm gv a H0 Hm Hv), (next_mean_exact x gm a Hm).
  split; [|split].
  - apply (traced_snoc (fun n l => np_mean (firstn (S n) l)) (cumulative_prefix np_mean));
      [|exact Hm]. rewrite firstn_snoc_all. reflexivity.
  - apply (traced_snoc (fun n l => np_var (firstn (S n) l)) (cumulative_prefix np_var));
      [|exact Hv]. rewrite firstn_snoc_all. reflexivity.
  - apply (traced_snoc (fun n l => np_std (firstn (S n) l)) (cumulative_prefix np_std));
      [|exact Hs]. rewrite firstn_snoc_all. reflexivity.
Qed.

Lemma exact_estimator_nil : exact_estimator [] [] [] [].
Proof. repeat split; simpl; intros; lia. Qed.

Lemma exact_estimator_step (s s1 : Analyst) (va : ValenceArousal) :
  lockstep s -> statistics_step s va s1 ->
  exact_estimator (buffers s _va_buffer) (buffers s _va_mean_global_buffer)
    (buffers s _va_variance_global_buffer) (buffers s _va_std_global_buffer) /\
  exact_estimator (buffers s _derivative_buffer) (buffers s _global_derivative_mean)
    (buffers s _global_derivative_variance) (buffers s _global_derivative_std) ->
  exact_estimator (buffers s1 _va_buffer) (buffers s1 _va_mean_global_buffer)
    (buffers s1 _va_variance_global_buffer) (buffers s1 _va_std_global_buffer) /\
  exact_estimator (buffers s1 _derivative_buffer) (buffers s1 _global_derivative_mean)
    (buffers s1 _global_derivative_variance) (buffers s1 _global_derivative_std).
Proof.
  intros L St [H1 H2]. rewrite !(step_buffers _ _ _ St). cbn [new_entry]. split.
  - rewrite <- (L _va_buffer). apply exact_estimator_snoc; [|exact H1].
    intros H0. apply length_zero_iff_nil in H0. rewrite H0. reflexivity.
  - rewrite <- (L _derivative_buffer). apply exact_estimator_snoc; [|exact H2].
    intros H0. rewrite (L _derivative_buffer), <- (L _va_buffer) in H0.
    apply length_zero_iff_nil in H0. rewrite H0. cbn [app].
    rewrite !np_var_singleton. reflexivity.
Qed.

Lemma cumulative_local_step (f : list ValenceArousal -> ValenceArousal)
  (x c : list ValenceArousal) (a : ValenceArousal) :
  cumulative_of f x c -> cumulative_of f (x ++ [a]) (c ++ [f (x ++ [a])]).
Proof.
  intros H.
  apply (traced_snoc (fun n l => f (firstn (S n) l)) (cumulative_prefix f)); [|exact H].
  rewrite firstn_snoc_all. reflexivity.
Qed.

Lemma cumulative_unique (f : list ValenceArousal -> ValenceArousal)
  (x c c' : list ValenceArousal) :
  cumulative_of f x c -> cumulative_of f x c' -> c = c'.
Proof.
  intros [Hl H] [Hl' H'].
  apply (nth_ext c c' va_zero va_zero); [congruence|].
  intros n Hn. rewrite H, H' by lia. reflexivity.
Qed.

Lemma exact_statistics_step (s s1 : Analyst) (va : ValenceArousal) :
  lockstep s -> statistics_step s va s1 -> exact_statistics s -> exact_statistics s1.
Proof.
  intros L St (H1 & H2 & H3 & H4 & H5 & H6).
  destruct (exact_estimator_step s s1 va L St (conj H1 H2)) as [G1 G2].
  split; [exact G1|]. split; [exact G2|].
  rewrite !(step_buffers _ _ _ St). cbn [new_entry].
  repeat split; apply cumulative_local_step; assumption.
Qed.

Lemma session_exact (sens : R) (w dw : nat) (rs : list Reading) :
  exists s, session sens w dw rs = Ok s /\ lockstep s /\
            session_shape sens w dw rs s /\ exact_statistics s.
Proof.
  apply (session_invariant exact_statistics).
  - repeat split; simpl; intros; lia.
  - intros s va t s1 L H St. unfold exact_statistics.
    rewrite !find_intersections_buffers. eapply exact_statistics_step; eauto.
Qed.

(** The incremental ("global") mean is the cumulative mean: after any
    session the global mean buffer equals the local mean buffer, for the raw
    signal and for the derivative, and its entry [n] is the arithmetic mean
    of the first [n + 1] readings. *)
Theorem global_mean_is_cumulative_mean (sens : R) (w dw : nat) (rs : list Reading) :
  exists s,
    session sens w dw rs = Ok s /\
    buffers s _va_mean_global_buffer = buffers s _va_mean_local_buffer /\
    buffers s _global_derivative_mean = buffers s _local_derivative_mean /\
    forall n, (n < length rs)%nat ->
      nth n (buffers s _va_mean_global_buffer) va_zero
      = arithmetic_mean (firstn (S n) (map fst rs)).
Proof.
  destruct (session_exact sens w dw rs)
    as [s (E & L & Sh & (Hm & _ & _) & (Hdm & _ & _) & Hlm & _ & Hldm & _)].
  destruct Sh as (_ & _ & _ & Hr & Hx).
  exists s. split; [exact E|].
  split; [exact (cumulative_unique _ _ _ _ Hm Hlm)|].
  split; [exact (cumulative_unique _ _ _ _ Hdm Hldm)|].
  intros n Hn. destruct Hm as [_ Hm].
  rewrite Hm by (rewrite Hx, length_map; exact Hn).
  rewrite Hx. apply np_mean_arithmetic.
Qed.

(** The incremental ("global") variance is the variance of the signal so
    far: after any session entry [n] of the global variance buffer is
    [np.var] of the first [n + 1] values, and the global std buffer equals
    the local std buffer, for the raw signal and for the derivative. *)
Theorem global_variance_is_cumulative_variance (sens : R) (w dw : nat)
  (rs : list Reading) :
  exists s,
    session sens w dw rs = Ok s /\
    buffers s _va_std_global_buffer = buffers s _va_std_local_buffer /\
    buffers s _global_derivative_std = buffers s _local_derivative_std /\
    forall n, (n < length rs)%nat ->
      nth n (buffers s _va_variance_global_buffer) va_zero
        = np_var (firstn (S n) (map fst rs)) /\
      nth n (buffers s _global_derivative_variance) va_zero
        = np_var (firstn (S n) (buffers s _derivative_buffer)).
Proof.
  destruct (session_exact sens w dw rs)
    as [s (E & L & Sh & (_ & Hv & Hs) & (_ & Hdv & Hds) & _ & Hls & _ & Hlds)].
  destruct Sh as (_ & _ & _ & Hr & Hx).
  exists s. split; [exact E|].
  split; [exact (cumulative_unique _ _ _ _ Hs Hls)|].
  split; [exact (cumulative_unique _ _ _ _ Hds Hlds)|].
  intros n Hn. destruct Hv as [_ Hv]. destruct Hdv as [_ Hdv]. split.
  - rewrite Hv by (rewrite Hx, length_map; exact Hn). rewrite Hx. reflexivity.
  - apply Hdv. rewrite L, Hr. exact Hn.
Qed.

Lemma np_sum_squares_nonneg (l : list R) (m : R) :
  0 <= np_sum (map (fun x => (x - m) * (x - m)) l).
Proof.
  unfold np_sum. induction l as [|x l IH]; simpl; [lra|].
  pose proof (Rle_0_sqr (x - m)) as H. unfold Rsqr in H. lra.
Qed.

Lemma var1_nonneg (l : list R) : 0 <= var1 l.
Proof.
  unfold var1, mean1. rewrite length_map.
  pose proof (np_sum_squares_nonneg l (np_sum l / INR (length l))) as H.
  destruct l as [|x l].
  - simpl. unfold np_sum. simpl. unfold Rdiv. rewrite Rmult_0_l. lra.
  - apply Rmult_le_pos; [exact H|].
    apply Rlt_le, Rinv_0_lt_compat, lt_0_INR. simpl. lia.
Qed.

(** The variance buffers never hold a negative number, so [va_std] never
    takes the square root of one. *)
Theorem variance_never_negative (sens : R) (w dw : nat) (rs : list Reading) :
  exists s,
    session sens w dw rs = Ok s /\
    Forall va_nonneg (buffers s _va_variance_global_buffer) /\
    Forall va_nonneg (buffers s _global_derivative_variance).
Proof.
  destruct (session_exact sens w dw rs)
    as [s (E & L & Sh & (_ & [Hlv Hv] & _) & (_ & [Hldv Hdv] & _) & _)].
  exists s. split; [exact E|].
  split; apply Forall_forall; intros v Hin;
    apply (In_nth _ _ va_zero) in Hin; destruct Hin as [n [Hn <-]].
  - rewrite Hv by lia. split; apply var1_nonneg.
  - rewrite Hdv by lia. split; apply var1_nonneg.
Qed.

(** ** The sigmoid *)






(** ** The timeline follows the readings *)

Lemma subsequence_nil_l {A : Type} (m : list A) : subsequence [] m.
Proof. induction m; constructor; assumption. Qed.

Lemma subsequence_refl {A : Type} (l : list A) : subsequence l l.
Proof. induction l; constructor; assumption. Qed.

Lemma subsequence_app {A : Type} (l1 m1 l2 m2 : list A) :
  subsequence l1 m1 -> subsequence l2 m2 -> subsequence (l1 ++ l2) (m1 ++ m2).
Proof.
  intros H1 H2. induction H1; simpl; try constructor; assumption.
Qed.

Lemma subsequence_trans {A : Type} (l m n : list A) :
  subsequence l m -> subsequence m n -> subsequence l n.
Proof.
  intros H1 H2. revert l H1. induction H2; intros l0 H1.
  - exact H1.
  - constructor. apply IHsubsequence. exact H1.
  - inversion H1; subst.
    + apply subsequence_skip. apply IHsubsequence. assumption.
    + apply subsequence_take. apply IHsubsequence. assumption.
Qed.

Lemma subsequence_filter {A : Type} (f : A -> bool) (l : list A) :
  subsequence (filter f l) l.
Proof.
  induction l as [|x l IH]; simpl; [constructor|].
  destruct (f x); constructor; exact IH.
Qed.

Lemma subsequence_In {A : Type} (l m : list A) (x : A) :
  subsequence l m -> In x l -> In x m.
Proof.
  intros H. induction H; simpl; intros Hin; auto.
  destruct Hin as [->|Hin]; auto.
Qed.

Lemma subsequence_length {A : Type} (l m : list A) :
  subsequence l m -> (length l <= length m)%nat.
Proof. intros H. induction H; simpl; lia. Qed.

Lemma subsequence_sorted {A : Type} (R : A -> A -> Prop) (l m : list A) :
  subsequence l m -> StronglySorted R m -> StronglySorted R l.
Proof.
  intros H. induction H; intros Hs.
  - constructor.
  - apply IHsubsequence. inversion Hs; assumption.
  - inversion Hs as [|? ? Hs' Hall]; subst. constructor.
    + apply IHsubsequence. exact Hs'.
    + apply Forall_forall. intros y Hy.
      apply (proj1 (Forall_forall _ _) Hall). eapply subsequence_In; eauto.
Qed.

Lemma lines_length (s : Analyst) (k : Activator) :
  lockstep s ->
  length (data_line s k) = _number_of_reads s /\
  length (control_line s k) = _number_of_reads s.
Proof.
  intros L.
  unfold data_line, control_line, deviation_threshold, sigmoid_threshold,
    derivative_threshold, sigmoid, np_scale, column0, np.
  destruct k; rewrite ?length_map, ?length_np_sub, ?length_map, !L;
    split; try reflexivity; apply Nat.min_id.
Qed.

Lemma detections_first_reading (s : Analyst) (t : timedelta) (k : Activator) :
  lockstep s -> (_number_of_reads s < 2)%nat -> detections s t k = [].
Proof.
  intros L Hn. destruct (lines_length s k L) as [Hd Hc].
  assert (Ho : is_intersection (data_line s k) (control_line s k) = false).
  { unfold is_intersection.
    rewrite is_intersection_result_short by (left; rewrite Hd; exact Hn). reflexivity. }
  assert (Hcl : is_intersection (control_line s k) (data_line s k) = false).
  { unfold is_intersection.
    rewrite is_intersection_result_short by (left; rewrite Hc; exact Hn). reflexivity. }
  unfold detections. destruct (Rltb (total_seconds t) DELAY); [reflexivity|].
  cbv zeta. rewrite Ho, Hcl, andb_false_r. reflexivity.
Qed.

Lemma detections_subsequence (s : Analyst) (t : timedelta) (k : Activator) :
  subsequence (map (fun _ => t) (detections s t k)) (filter past_delay [t]).
Proof.
  unfold filter, past_delay.
  destruct (detections_cases s t k) as [E|[E|[E _]]]; rewrite E; simpl;
    try apply subsequence_nil_l;
    (destruct (Rltb (total_seconds t) DELAY) eqn:Eg;
     [unfold detections in E; rewrite Eg in E; discriminate
     |simpl; apply subsequence_refl]).
Qed.

Lemma ingest_timeline_subsequence (rs : list Reading) (k : Activator) :
  forall s, lockstep s ->
  exists s',
    ingest s rs = Ok s' /\
    exists more,
      timeline (_intersections s') k = timeline (_intersections s) k ++ more /\
      subsequence more
        (filter past_delay
           (map snd (if (_number_of_reads s =? 0)%nat then tl rs else rs))).
Proof.
  induction rs as [|[va t] rs IH]; intros s L.
  - exists s. split; [reflexivity|]. exists []. rewrite app_nil_r.
    split; [reflexivity|]. destruct (_number_of_reads s =? 0)%nat; constructor.
  - destruct (add_inference_result_ok s va t L) as [s1 (St & L1 & _ & Ea)].
    destruct (IH (find_intersections s1 t) (find_intersections_lockstep s1 t L1))
      as [s' [Ei [more [Ht Hs]]]].
    exists s'. cbn [ingest]. rewrite Ea. cbn [bind]. split; [exact Ei|].
    rewrite find_intersections_timeline, (step_intersections _ _ _ St) in Ht.
    rewrite find_intersections_reads, (step_reads _ _ _ St) in Hs.
    replace (_number_of_reads s + 1 =? 0)%nat with false in Hs
      by (symmetry; apply Nat.eqb_neq; lia).
    exists (map (fun _ => t) (detections s1 t k) ++ more).
    split; [rewrite Ht, <- app_assoc; reflexivity|].
    destruct (_number_of_reads s =? 0)%nat eqn:E0.
    + apply Nat.eqb_eq in E0.
      rewrite (detections_first_reading s1 t k L1)
        by (rewrite (step_reads _ _ _ St), E0; simpl; lia).
      simpl. exact Hs.
    + change (map snd ((va, t) :: rs)) with ([t] ++ map snd rs).
      rewrite filter_app. apply subsequence_app; [|exact Hs].
      apply detections_subsequence.
Qed.

(** After any session the timeline of each kind is an order-preserving
    sublist of the timestamps of the readings after the first that are not
    below the 30-second delay: every recorded timestamp is the timestamp of
    such a reading, none is recorded for the first reading, and a reading
    contributes at most once, in ingestion order. *)
Theorem timeline_follows_readings (sens : R) (w dw : nat) (rs : list Reading)
  (k : Activator) :
  exists s,
    session sens w dw rs = Ok s /\
    subsequence (timeline (_intersections s) k)
      (filter past_delay (map snd (tl rs))) /\
    (forall t, In t (timeline (_intersections s) k) ->
               DELAY <= total_seconds t /\ In t (map snd (tl rs))) /\
    (length (timeline (_intersections s) k) <= length rs - 1)%nat.
Proof.
  destruct (ingest_timeline_subsequence rs k (__init__ sens w dw)
              (lockstep_init sens w dw)) as [s [E [more [Ht Hs]]]].
  simpl in Ht, Hs. rewrite <- Ht in Hs.
  exists s. split; [exact E|]. split; [exact Hs|]. split.
  - intros t Hin. apply (subsequence_In _ _ _ Hs) in Hin.
    apply filter_In in Hin. destruct Hin as [Hin Hp]. split; [|exact Hin].
    unfold past_delay in Hp. apply negb_true_iff in Hp.
    destruct (Rle_lt_dec DELAY (total_seconds t)) as [Hle|Hlt]; [exact Hle|].
    rewrite (Rltb_true _ _ Hlt) in Hp. discriminate.
  - apply subsequence_length in Hs.
    pose proof (subsequence_length _ _ (subsequence_filter past_delay (map snd (tl rs)))).
    rewrite length_map in H.
    assert (Htl : length (tl rs) = (length rs - 1)%nat)
      by (destruct rs; simpl; lia).
    rewrite <- Htl. eapply Nat.le_trans; [exact Hs | exact H].
Qed.

(** When the timestamps of the readings increase strictly, so do the
    timestamps of the timeline of each kind. *)
Theorem timeline_sorted (sens : R) (w dw : nat) (rs : list Reading) (k : Activator) :
  StronglySorted earlier (map snd rs) ->
  exists s,
    session sens w dw rs = Ok s /\
    StronglySorted earlier (timeline (_intersections s) k).
Proof.
  intros Hs.
  destruct (ingest_timeline_subsequence rs k (__init__ sens w dw)
              (lockstep_init sens w dw)) as [s [E [more [Ht Hsub]]]].
  simpl in Ht, Hsub. rewrite <- Ht in Hsub.
  exists s. split; [exact E|].
  apply (subsequence_sorted earlier _ (map snd rs)); [|exact Hs].
  eapply subsequence_trans; [exact Hsub|].
  eapply subsequence_trans; [apply subsequence_filter|].
  destruct rs as [|r rs']; [constructor|]. simpl. apply subsequence_skip.
  apply subsequence_refl.
Qed.

(** ** The events, kind by kind *)

Lemma in_keys_dict_set (d : Intersections) (k x : Activator) (l : list timedelta) :
  In x (keys (dict_set d k l)) <-> In x (keys d) \/ x = k.
Proof.
  unfold keys. induction d as [|[k' l'] d IH]; simpl.
  - split; [intros [H|[]]; auto | intros [[]|H]; auto].
  - destruct (Activator_eqb k' k) eqn:E; simpl.
    + apply Activator_eqb_eq in E. subst k'. split; [tauto|].
      intros [[H|H]|H]; auto.
    + rewrite IH. tauto.
Qed.

Lemma keys_dict_set_nodup (d : Intersections) (k : Activator) (l : list timedelta) :
  NoDup (keys d) -> NoDup (keys (dict_set d k l)).
Proof.
  induction d as [|[k' l'] d IH]; intros H.
  - simpl. constructor; [intros [] | constructor].
  - simpl. inversion H as [|? ? Hnin Hd]; subst.
    destruct (Activator_eqb k' k) eqn:E; simpl.
    + constructor; assumption.
    + constructor; [|apply IH; exact Hd].
      intros Hin. apply in_keys_dict_set in Hin. destruct Hin as [Hin|Hin].
      * exact (Hnin Hin).
      * subst k'. rewrite Activator_eqb_refl in E. discriminate.
Qed.

Lemma defaultdict_getitem_nodup (d : Intersections) (k : Activator) :
  NoDup (keys d) -> NoDup (keys (fst (defaultdict_getitem d k))).
Proof.
  intros H. unfold defaultdict_getitem. destruct (dict_get d k); simpl;
    [exact H | apply keys_dict_set_nodup; exact H].
Qed.

Lemma add_intersect_nodup (d : Intersections) (t : timedelta) (dl cl : list R)
  (k : Activator) (check_oddity : bool) :
  NoDup (keys d) -> NoDup (keys (add_intersect d t dl cl k check_oddity)).
Proof.
  intros H. unfold add_intersect.
  assert (Happend : forall d0, NoDup (keys d0) ->
             NoDup (keys (let '(d1, l) := defaultdict_getitem d0 k in
                          dict_set d1 k (append l t)))).
  { intros d0 H0. pose proof (defaultdict_getitem_nodup d0 k H0) as H1.
    destruct (defaultdict_getitem d0 k) as [d1 l1]. simpl in H1.
    apply keys_dict_set_nodup. exact H1. }
  destruct check_oddity; cbn [negb].
  - pose proof (defaultdict_getitem_nodup d k H) as H1.
    destruct (defaultdict_getitem d k) as [d1 l1]. simpl in H1.
    destruct (length l1 mod 2 =? 1)%nat; [|exact H1].
    destruct (is_intersection dl cl); [|exact H1]. apply Happend. exact H1.
  - destruct (is_intersection dl cl); [|exact H]. apply Happend. exact H.
Qed.

Lemma find_intersections_nodup (s : Analyst) (t : timedelta) :
  NoDup (keys (_intersections s)) ->
  NoDup (keys (_intersections (find_intersections s t))).
Proof.
  intros H. unfold find_intersections.
  destruct (Rltb (total_seconds t) DELAY); [exact H|].
  cbv zeta. cbn [_intersections set_intersections].
  repeat apply add_intersect_nodup. exact H.
Qed.

Lemma filter_kind_other (k k' : Activator) (l : list timedelta) :
  k' <> k ->
  filter (fun e : timedelta * Activator => Activator_eqb (snd e) k)
    (map (fun t => (t, k')) l) = [].
Proof.
  intros Hne. induction l as [|t l IH]; simpl; [reflexivity|].
  rewrite Activator_eqb_neq by exact Hne. exact IH.
Qed.

Lemma filter_kind_same (k : Activator) (l : list timedelta) :
  filter (fun e : timedelta * Activator => Activator_eqb (snd e) k)
    (map (fun t => (t, k)) l) = map (fun t => (t, k)) l.
Proof.
  induction l as [|t l IH]; simpl; [reflexivity|].
  rewrite Activator_eqb_refl, IH. reflexivity.
Qed.

Lemma events_filter_absent (d : Intersections) (k : Activator) :
  ~ In k (keys d) ->
  filter (fun e : timedelta * Activator => Activator_eqb (snd e) k)
    (concat (map (fun at_ => map (fun t => (t, fst at_)) (snd at_)) d)) = [].
Proof.
  induction d as [|[k' l] d IH]; simpl; intros Hnin; [reflexivity|].
  rewrite filter_app, filter_kind_other by (intros ->; apply Hnin; auto).
  apply IH. intros Hin. apply Hnin. auto.
Qed.

Lemma events_filter (d : Intersections) (k : Activator) :
  NoDup (keys d) ->
  filter (fun e : timedelta * Activator => Activator_eqb (snd e) k)
    (concat (map (fun at_ => map (fun t => (t, fst at_)) (snd at_)) d))
  = map (fun t => (t, k)) (timeline d k).
Proof.
  unfold timeline. induction d as [|[k' l] d IH]; simpl; intros H; [reflexivity|].
  inversion H as [|? ? Hnin Hd]; subst. rewrite filter_app.
  destruct (Activator_eqb k' k) eqn:E.
  - apply Activator_eqb_eq in E. subst k'.
    rewrite filter_kind_same, (events_filter_absent d k Hnin). apply app_nil_r.
  - rewrite filter_kind_other
      by (intros ->; rewrite Activator_eqb_refl in E; discriminate).
    apply IH. exact Hd.
Qed.

(** After any session the dict has no key twice, and the events of one kind,
    in the order in which [events] lists them, are the timeline of that kind,
    each timestamp paired with the kind: an event is listed exactly as often
    as its timestamp is on the timeline. *)
Theorem events_by_kind (sens : R) (w dw : nat) (rs : list Reading) :
  exists s,
    session sens w dw rs = Ok s /\
    NoDup (keys (_intersections s)) /\
    (forall k,
        filter (fun e => Activator_eqb (snd e) k) (events s)
        = map (fun t => (t, k)) (timeline (_intersections s) k)) /\
    (forall t k, In (t, k) (events s) <-> In t (timeline (_intersections s) k)).
Proof.
  destruct (session_invariant (fun s => NoDup (keys (_intersections s))) sens w dw)
    with (rs := rs) as [s (E & _ & _ & H)].
  - constructor.
  - intros s va t s1 _ H St. apply find_intersections_nodup.
    rewrite (step_intersections _ _ _ St). exact H.
  - assert (Hf : forall k,
        filter (fun e => Activator_eqb (snd e) k) (events s)
        = map (fun t => (t, k)) (timeline (_intersections s) k))
      by (intros k; apply events_filter; exact H).
    exists s. split; [exact E|]. split; [exact H|]. split; [exact Hf|].
    intros t k. split.
    + intros Hin.
      assert (Hin' : In (t, k) (filter (fun e => Activator_eqb (snd e) k) (events s)))
        by (apply filter_In; split; [exact Hin | apply Activator_eqb_refl]).
      rewrite Hf in Hin'. apply in_map_iff in Hin'.
      destruct Hin' as [t' [Heq Hin']]. injection Heq as ->. exact Hin'.
    + apply timeline_in_events.
Qed.

(** ** A constant signal *)



























(** ** Window sizes at the two ends *)

Lemma window_one (x : list ValenceArousal) (n : nat) :
  (n < length x)%nat -> window 1 n x = [nth n x va_zero].
Proof.
  unfold window. replace (S n - Nat.min (S n) 1)%nat with n by lia.
  revert n. induction x as [|a x IH]; intros [|n] H; simpl in *; try lia.
  - reflexivity.
  - apply IH. lia.
Qed.

Lemma window_all (w n : nat) (x : list ValenceArousal) :
  (S n <= w)%nat -> window w n x = firstn (S n) x.
Proof.
  intros H. unfold window. replace (S n - Nat.min (S n) w)%nat with 0%nat by lia.
  reflexivity.
Qed.

Lemma arithmetic_mean_singleton (v : ValenceArousal) : arithmetic_mean [v] = v.
Proof. rewrite <- np_mean_arithmetic. apply np_mean_singleton. Qed.

Lemma session_windows (sens : R) (w dw : nat) (rs : list Reading) :
  exists s, session sens w dw rs = Ok s /\ lockstep s /\
            session_shape sens w dw rs s /\
            moving_average_of w (buffers s _va_buffer) (buffers s _va_moving_average) /\
            moving_average_of dw (buffers s _derivative_buffer)
              (buffers s _derivative_moving_average) /\
            exact_statistics s.
Proof.
  destruct (session_moving_average sens w dw rs) as [s (E & L & Sh & H1 & H2)].
  destruct (session_exact sens w dw rs) as [s' (E' & _ & _ & H3)].
  assert (s' = s) by congruence. subst s'.
  exists s. repeat (split; [assumption|]).
  destruct Sh as (_ & _ & _ & _ & Hx). rewrite Hx.
  split; [exact H1|]. split; [exact H2 | exact H3].
Qed.

(** With both window sizes 1 nothing is smoothed: the moving-average buffer
    is the raw buffer and the derivative moving-average buffer is the
    derivative buffer. *)
Theorem window_of_one (sens : R) (rs : list Reading) :
  exists s,
    session sens 1 1 rs = Ok s /\
    buffers s _va_moving_average = buffers s _va_buffer /\
    buffers s _derivative_moving_average = buffers s _derivative_buffer.
Proof.
  destruct (session_windows sens 1 1 rs) as [s (E & L & Sh & [Hl1 H1] & [Hl2 H2] & _)].
  exists s. split; [exact E|].
  split; apply (nth_ext _ _ va_zero va_zero); try assumption; intros n Hn.
  - rewrite H1 by lia. rewrite window_one by lia. apply arithmetic_mean_singleton.
  - rewrite H2 by lia. rewrite window_one by lia. apply arithmetic_mean_singleton.
Qed.

(** While a window is at least as long as the session, the moving average
    is the cumulative mean: the moving-average buffers equal the local mean
    buffers. *)
Theorem window_longer_than_session (sens : R) (w dw : nat) (rs : list Reading) :
  (length rs <= w)%nat -> (length rs <= dw)%nat ->
  exists s,
    session sens w dw rs = Ok s /\
    buffers s _va_moving_average = buffers s _va_mean_local_buffer /\
    buffers s _derivative_moving_average = buffers s _local_derivative_mean.
Proof.
  intros Hw Hdw.
  destruct (session_windows sens w dw rs)
    as [s (E & L & Sh & [Hl1 H1] & [Hl2 H2] & _ & _ & [Hl3 H3] & _ & [Hl4 H4] & _)].
  destruct Sh as (_ & _ & _ & Hr & _).
  assert (Hlen : forall name, length (buffers s name) = length rs)
    by (intros name; rewrite L; exact Hr).
  exists s. split; [exact E|].
  split; apply (nth_ext _ _ va_zero va_zero); try congruence; intros n Hn.
  - rewrite Hlen in Hn. rewrite H1, H3 by (rewrite Hlen; exact Hn).
    rewrite window_all by lia. symmetry. apply np_mean_arithmetic.
  - rewrite Hlen in Hn. rewrite H2, H4 by (rewrite Hlen; exact Hn).
    rewrite window_all by lia. symmetry. apply np_mean_arithmetic.
Qed.

Lemma window_longer_than_session_witness :
  (length calm <= 5)%nat /\ (length calm <= 2)%nat /\
  exists s,
    session 0 5 2 calm = Ok s /\
    buffers s _va_moving_average = buffers s _va_mean_local_buffer.
Proof.
  split; [simpl; lia|]. split; [simpl; lia|].
  destruct (window_longer_than_session 0 5 2 calm) as [s (E & H & _)];
    [simpl; lia | simpl; lia |].
  exists s. split; [exact E | exact H].
Defined.

(** ** Thresholds lie at or below the cumulative mean *)






(** ** More theorems at concrete sessions *)

Lemma statistics_ignore_time_witness :
  map fst calm = map fst (map (fun r => (fst r, sec 5)) calm) /\
  exists s1 s2,
    session 0 1 1 calm = Ok s1 /\
    session 0 1 1 (map (fun r => (fst r, sec 5)) calm) = Ok s2 /\
    same_statistics s1 s2.
Proof.
  split; [reflexivity|].
  apply (statistics_ignore_time 0 1 1 calm (map (fun r => (fst r, sec 5)) calm)).
  reflexivity.
Defined.

Lemma timeline_sorted_witness :
  StronglySorted earlier (map snd dip_touch_dip) /\
  exists s,
    session 0 1 1 dip_touch_dip = Ok s /\
    StronglySorted earlier (timeline (_intersections s) local_deviation).
Proof.
  assert (H : StronglySorted earlier (map snd dip_touch_dip))
    by (simpl; repeat (constructor; [|repeat (constructor; [reflexivity|]);
                                       constructor]); constructor).
  split; [exact H|].
  apply (timeline_sorted 0 1 1 dip_touch_dip local_deviation H).
Defined.


(** ** The mean of the derivative telescopes *)




